(** * SeaBattle: the board and fleet engine of src/SeaBattle.py

    A shallow embedding of the Python program.  Python integers are [Z],
    a ship is a record, the fleet is a list in which a ship's position is
    its identity (the source compares ships by reference), and a function
    that mutates an object and may raise returns the outcome together with
    the state it leaves behind.  Random numbers and console lines are read
    from explicit lists: a run that needs more random numbers than it was
    given has no result ([None]).  A console line is a sequence of code
    points; what Python's text functions make of it is a parameter
    ([Unicode]), fixed on ASCII characters only. *)

From Stdlib Require Import ZArith Lia Bool Ascii String.
From stdpp Require Import base option list relations.

Open Scope Z_scope.

(** ** Exceptions and outcomes *)

Inductive exn : Type :=
  | ShipMoveError
  | IndexBoardError
  | ShootError
  | ValueError
  | IndexError
  | EOFError.

(** [except SeaBattleError] catches the three subclasses declared in the
    source and nothing else. *)
Definition is_SeaBattleError (e : exn) : bool :=
  match e with
  | ShipMoveError | IndexBoardError | ShootError => true
  | _ => false
  end.

Inductive res (A : Type) : Type :=
  | Ok (a : A)
  | Raise (e : exn).
Arguments Ok {A} a.
Arguments Raise {A} e.

Definition res_bind {A B} (r : res A) (k : A -> res B) : res B :=
  match r with
  | Ok a => k a
  | Raise e => Raise e
  end.

Notation "x <~ r ;; k" := (res_bind r (fun x => k))
  (at level 100, r at next level, right associativity).

Definition raised {A} (r : res A) : bool :=
  match r with Ok _ => false | Raise _ => true end.

(** ** Python built-ins used by the source *)

(** [range(a, b)]. *)
Definition range (a b : Z) : list Z := seqZ a (b - a).

(** The position a Python list of length [n] reads or writes under the
    index [i]: negative indices count from the end, anything else out of
    range is an [IndexError]. *)
Definition py_index (n : nat) (i : Z) : option nat :=
  if (0 <=? i) && (i <? Z.of_nat n) then Some (Z.to_nat i)
  else if (- Z.of_nat n <=? i) && (i <? 0) then Some (Z.to_nat (Z.of_nat n + i))
  else None.

Definition py_getitem {A} (l : list A) (i : Z) : res A :=
  match py_index (length l) i with
  | Some n => match l !! n with Some a => Ok a | None => Raise IndexError end
  | None => Raise IndexError
  end.

Definition py_setitem {A} (l : list A) (i : Z) (v : A) : res (list A) :=
  match py_index (length l) i with
  | Some n => Ok (<[n := v]> l)
  | None => Raise IndexError
  end.

(** [random.randint(a, b)] for [a <= b], as a function of the raw number
    [r] the generator produced; callers check [a <= b] first, where the
    library raises [ValueError]. *)
Definition randint (a b r : Z) : Z := a + r mod (b - a + 1).

(** [random.choice((1, -1))], from the raw number [r]. *)
Definition choice_direction (r : Z) : Z :=
  if r mod 2 =? 0 then 1 else -1.

(** ** Cell *)

Record Cell : Type := mkCell { _value : bool }.

(** [Cell(ship)]: the owning ship is the ship whose [_cells] holds it. *)
Definition Cell_init : Cell := mkCell true.

Definition Cell_bool (c : Cell) : bool := _value c.

(** ** Ship *)

(** [_x] and [_y] are [None] in the source between [Ship(...)] and the
    first [set_start_coords]; [_placement_ship] sets both before anything
    reads them, so the record keeps them as integers. *)
Record Ship : Type := mkShip {
  _length : Z;
  _tp : Z;
  _x : Z;
  _y : Z;
  _is_move : bool;
  _cells : list Cell
}.

Definition Ship_init (length tp x y : Z) : Ship :=
  mkShip length tp x y true (map (fun _ => Cell_init) (range 0 length)).

Definition set_start_coords (s : Ship) (x y : Z) : Ship :=
  mkShip (_length s) (_tp s) x y (_is_move s) (_cells s).

Definition get_start_coords (s : Ship) : Z * Z := (_x s, _y s).

Definition get_finish_coords (s : Ship) : Z * Z :=
  let '(width, height) :=
    if _tp s =? 1 then (_length s, 1) else (1, _length s) in
  (_x s + width, _y s + height).

Definition hurt (s : Ship) : Ship :=
  if _is_move s
  then mkShip (_length s) (_tp s) (_x s) (_y s) false (_cells s)
  else s.

Definition move (s : Ship) (direction : Z) : res Ship :=
  if negb (_is_move s) then Raise ShipMoveError
  else if _tp s =? 1
       then Ok (mkShip (_length s) (_tp s) (_x s + direction) (_y s)
                  (_is_move s) (_cells s))
       else Ok (mkShip (_length s) (_tp s) (_x s) (_y s + direction)
                  (_is_move s) (_cells s)).

Definition is_collide (self ship : Ship) : bool :=
  let '(x2, y2) := get_finish_coords self in
  let '(x1_ship, y1_ship) := get_start_coords ship in
  let '(x2_ship, y2_ship) := get_finish_coords ship in
  (_x self <=? x2_ship) && (x2 >=? x1_ship)
  && (_y self <=? y2_ship) && (y2 >=? y1_ship).

Definition out_of (size p : Z) : bool := negb ((0 <=? p) && (p <? size)).

Definition is_out_board (s : Ship) (size : Z) : bool :=
  let '(x1, y1) := get_start_coords s in
  let '(x2, y2) := get_finish_coords s in
  existsb (out_of size) [x1; y1; x2; y2].

(** [ship[item]] for the indices the source uses (counted up from 0). *)
Definition Ship_getitem (s : Ship) (i : nat) : res Cell :=
  match _cells s !! i with
  | Some c => Ok c
  | None => Raise IndexError
  end.

Definition Ship_len (s : Ship) : Z := _length s.

Definition Ship_bool (s : Ship) : bool := existsb Cell_bool (_cells s).

(** [Cell.hit] on the cell at index [i] of ship [s]: the cell's value is
    cleared and its ship is hurt. *)
Definition Cell_hit (s : Ship) (i : nat) : Ship :=
  hurt (mkShip (_length s) (_tp s) (_x s) (_y s) (_is_move s)
          (<[i := mkCell false]> (_cells s))).

(** ** The move guard and the board *)

Record Board : Type := mkBoard {
  _size : Z;
  _ships : list Ship
}.

(** What a position of the rendered grid holds: the background marker
    ['*'] or a reference to the cell [i] of the fleet's ship [k]. *)
Inductive Target : Type :=
  | Star
  | CellRef (k i : nat).

Abbreviation Grid := (list (list Target)).

(** What [hit] prints. *)
Inductive Report : Type := Wounded | Sunk | Miss.

(** [with DefenderMoveShip(s) as ship: body], for the fleet's ship [k]
    and a body that leaves the list of ships in its order, as the bodies
    of the source do (they mutate one ship): [__init__] reads the start
    coordinates, [__exit__] writes them back when the body raised, and
    lets the exception through. *)
Definition DefenderMoveShip {A} (k : nat) (body : Board -> res A * Board)
    (b : Board) : res A * Board :=
  match _ships b !! k with
  | None => body b
  | Some s =>
      let '(x, y) := get_start_coords s in
      let '(r, b') := body b in
      if raised r
      then (r, mkBoard (_size b')
                 (alter (fun ship => set_start_coords ship x y) k (_ships b')))
      else (r, b')
  end.

(** The ten lengths [create] iterates over. *)
Definition _NUMS_SHIPS : list (Z * Z) := [(4, 1); (3, 2); (2, 3); (1, 4)].

Definition fleet_lengths : list Z :=
  flat_map (fun '(length, nums) => map (fun _ => length) (range 0 nums))
    _NUMS_SHIPS.

(** [Ship(length, tp=randint(1, 2))] for every length; the coordinates,
    unset in the source, start at 0 and are overwritten by
    [_placement_ship] before they are read. *)
Fixpoint new_ships (lengths : list Z) (rnd : list Z)
    : option (list Ship * list Z) :=
  match lengths with
  | [] => Some ([], rnd)
  | length :: rest =>
      match rnd with
      | [] => None
      | r :: rnd' =>
          match new_ships rest rnd' with
          | Some (ships, rnd'') =>
              Some (Ship_init length (randint 1 2 r) 0 0 :: ships, rnd'')
          | None => None
          end
      end
  end.

(** The ships [other in self._ships if other != ship]; [me] is the
    position of [ship] in the fleet, [None] while it is not yet in it. *)
Definition others (b : Board) (me : option nat) : list Ship :=
  match me with
  | Some k => delete k (_ships b)
  | None => _ships b
  end.

Definition _check_location_ship (b : Board) (me : option nat) (ship : Ship)
    : bool :=
  is_out_board ship (_size b) || existsb (is_collide ship) (others b me).

(** [while True] of [_placement_ship]: every round takes two numbers. *)
Fixpoint _placement_ship (b : Board) (ship : Ship) (rnd : list Z)
    : option (res unit * Board * list Z) :=
  if _size b - 1 <? 0 then Some (Raise ValueError, b, rnd)
  else
    match rnd with
    | rx :: ry :: rnd' =>
        let ship' := set_start_coords ship (randint 0 (_size b - 1) rx)
                       (randint 0 (_size b - 1) ry) in
        if negb (_check_location_ship b None ship')
        then Some (Ok tt, mkBoard (_size b) (_ships b ++ [ship']), rnd')
        else _placement_ship b ship' rnd'
    | _ => None
    end.

Fixpoint place_all (b : Board) (ships : list Ship) (rnd : list Z)
    : option (res unit * Board * list Z) :=
  match ships with
  | [] => Some (Ok tt, b, rnd)
  | ship :: rest =>
      match _placement_ship b ship rnd with
      | Some (Ok _, b', rnd') => place_all b' rest rnd'
      | other => other
      end
  end.

Definition create (b : Board) (rnd : list Z)
    : option (res unit * Board * list Z) :=
  match new_ships fleet_lengths rnd with
  | Some (ships, rnd') => place_all b ships rnd'
  | None => None
  end.

(** [Board(size)]: the board exists when [create] returned. *)
Definition Board_init (size : Z) (rnd : list Z) : option (res Board * list Z) :=
  match create (mkBoard size []) rnd with
  | Some (Ok _, b, rnd') => Some (Ok b, rnd')
  | Some (Raise e, _, rnd') => Some (Raise e, rnd')
  | None => None
  end.

Definition get_ships (b : Board) : list Ship := _ships b.

(** [res[y][x] = ship[i]; i += 1] for every [x] of the inner loop. *)
Fixpoint paint_row (k : nat) (s : Ship) (y : Z) (xs : list Z) (i : nat)
    (g : Grid) : res (Grid * nat) :=
  match xs with
  | [] => Ok (g, i)
  | x :: xs' =>
      _ <~ Ship_getitem s i ;;
      row <~ py_getitem g y ;;
      row' <~ py_setitem row x (CellRef k i) ;;
      g' <~ py_setitem g y row' ;;
      paint_row k s y xs' (S i) g'
  end.

Fixpoint paint_ship (k : nat) (s : Ship) (ys xs : list Z) (i : nat)
    (g : Grid) : res (Grid * nat) :=
  match ys with
  | [] => Ok (g, i)
  | y :: ys' =>
      gi <~ paint_row k s y xs i g ;;
      paint_ship k s ys' xs (snd gi) (fst gi)
  end.

Fixpoint paint_fleet (k : nat) (ships : list Ship) (g : Grid) : res Grid :=
  match ships with
  | [] => Ok g
  | s :: rest =>
      let '(x1, y1) := get_start_coords s in
      let '(x2, y2) := get_finish_coords s in
      gi <~ paint_ship k s (range y1 y2) (range x1 x2) 0 g ;;
      paint_fleet (S k) rest (fst gi)
  end.

Definition blank (size : Z) : Grid :=
  replicate (Z.to_nat size) (replicate (Z.to_nat size) Star).

Definition get_board (b : Board) : res Grid :=
  paint_fleet 0 (_ships b) (blank (_size b)).

(** [_move_ship] for the fleet's ship [k]; [move_ships] calls it with the
    positions of the fleet only, for any other [k] there is no ship to
    move. *)
Definition _move_ship (b : Board) (k : nat) (direction : Z)
    : res unit * Board :=
  match _ships b !! k with
  | None => (Ok tt, b)
  | Some s =>
      match move s direction with
      | Raise e => (Raise e, b)
      | Ok s' =>
          let b' := mkBoard (_size b) (<[k := s']> (_ships b)) in
          if _check_location_ship b' (Some k) s'
          then (Raise ShipMoveError, b')
          else (Ok tt, b')
      end
  end.

(** The body of the [for] loop of [move_ships] for the ship [k]. *)
Definition move_ship_at (b : Board) (k : nat) (direction : Z)
    : res unit * Board :=
  let '(r1, b1) :=
    DefenderMoveShip k (fun b0 => _move_ship b0 k direction) b in
  match r1 with
  | Ok _ => (Ok tt, b1)
  | Raise e1 =>
      if is_SeaBattleError e1
      then
        let '(r2, b2) :=
          DefenderMoveShip k (fun b0 => _move_ship b0 k (- direction)) b1 in
        match r2 with
        | Ok _ => (Ok tt, b2)
        | Raise e2 =>
            if is_SeaBattleError e2 then (Ok tt, b2) else (Raise e2, b2)
        end
      else (Raise e1, b1)
  end.

Fixpoint move_ships_from (ks : list nat) (b : Board) (rnd : list Z)
    : option (res unit * Board * list Z) :=
  match ks with
  | [] => Some (Ok tt, b, rnd)
  | k :: ks' =>
      match rnd with
      | [] => None
      | r :: rnd' =>
          let '(o, b') := move_ship_at b k (choice_direction r) in
          match o with
          | Ok _ => move_ships_from ks' b' rnd'
          | Raise e => Some (Raise e, b', rnd')
          end
      end
  end.

Definition move_ships (b : Board) (rnd : list Z)
    : option (res unit * Board * list Z) :=
  move_ships_from (seq 0 (length (_ships b))) b rnd.

Definition Board_getitem (b : Board) (item : Z * Z) : res Target :=
  let '(row, col) := item in
  g <~ get_board b ;;
  r <~ py_getitem g row ;;
  py_getitem r col.

Definition Board_bool (b : Board) : bool := existsb Ship_bool (_ships b).

(** [hit(y, x)]: the outcome (the returned flag and the printed report,
    or the exception) and the board it leaves.  [target] is read through
    the reference the grid holds; a reference of the grid always names a
    cell of the fleet ([Board_getitem_valid]), so the two [IndexError]
    branches on a missing ship or cell are never taken. *)
Definition hit (b : Board) (y x : Z) : res (bool * Report) * Board :=
  if existsb (out_of (_size b)) [x; y]
  then (Raise IndexBoardError, b)
  else
    match Board_getitem b (y, x) with
    | Raise e => (Raise e, b)
    | Ok Star => (Ok (false, Miss), b)
    | Ok (CellRef k i) =>
        match _ships b !! k with
        | None => (Raise IndexError, b)
        | Some s =>
            match _cells s !! i with
            | None => (Raise IndexError, b)
            | Some target =>
                if negb (Cell_bool target) then (Raise ShootError, b)
                else
                  let s' := Cell_hit s i in
                  (Ok (true, if Ship_bool s' then Wounded else Sunk),
                   mkBoard (_size b) (<[k := s']> (_ships b)))
            end
        end
    end.

(** ** Players *)

Record Player : Type := mkPlayer { board : Board }.

Definition Player_bool (p : Player) : bool := Board_bool (board p).

(** What [shoot] returns when it retried: the result of the retry is
    dropped ([None]), an exception of the retry goes on. *)
Definition after_retry {S : Type} (r : res (option bool) * Board * S)
    : res (option bool) * Board * S :=
  match r with
  | (Ok _, b, rest) => (Ok None, b, rest)
  | other => other
  end.

(** [AI.shoot]: the value returned is [Some flag] for a Python [bool] and
    [None] for Python's [None], which is what the retry branch returns. *)
Fixpoint AI_shoot (target : Board) (rnd : list Z)
    : option (res (option bool) * Board * list Z) :=
  match rnd with
  | rx :: ry :: rnd' =>
      let x := randint 0 9 rx in
      let y := randint 0 9 ry in
      match hit target x y with
      | (Ok (flag, _), b') => Some (Ok (Some flag), b', rnd')
      | (Raise ShootError, b') => after_retry <$> AI_shoot b' rnd'
      | (Raise e, b') => Some (Raise e, b', rnd')
      end
  | _ => None
  end.

(** A Python [str] is a sequence of Unicode code points; [input()] returns
    the line typed as one. *)
Abbreviation str := (list nat).

(** The [str] of a literal of ASCII characters. *)
Definition text (s : string) : str := nat_of_ascii <$> list_ascii_of_string s.

Definition is_ascii (c : nat) : Prop := (c < 128)%nat.

#[global] Instance is_ascii_dec (c : nat) : Decision (is_ascii c).
Proof. unfold is_ascii. apply _. Defined.

(** [str.upper] on one ASCII character. *)
Definition upper_char (c : nat) : nat :=
  if (97 <=? c)%nat && (c <=? 122)%nat then (c - 32)%nat else c.

(** [str.upper], [str.isdigit] and [int] read the Unicode tables of the
    interpreter, which are no part of the program: [upper] is
    [line.upper()], [isdigit] is [x.isdigit()] and [int_of_char] is
    [int(x)] for a string [x] of one character, [None] where it raises
    [ValueError].  They are taken as given, with what Python fixes for
    them: on ASCII text [upper] turns the letters a-z into A-Z and keeps
    every other character, [isdigit] holds of an ASCII character exactly
    when it is one of 0-9, and [int] of such a digit is its value; [int]
    of any one character, where it returns, is a digit value from 0 to 9.
    Outside ASCII nothing else is assumed: [upper] may change the number
    of characters of a line, and [isdigit] may hold of characters that
    [int] refuses. *)
Class Unicode : Type := {
  upper : str -> str;
  isdigit : nat -> bool;
  int_of_char : nat -> option Z;
  upper_ascii (s : str) : Forall is_ascii s -> upper s = upper_char <$> s;
  isdigit_ascii (c : nat) :
    is_ascii c -> isdigit c = (48 <=? c)%nat && (c <=? 57)%nat;
  int_of_digit (c : nat) :
    (48 <= c <= 57)%nat -> int_of_char c = Some (Z.of_nat c - 48);
  int_of_char_range (c : nat) (n : Z) : int_of_char c = Some n -> 0 <= n <= 9
}.

Definition ascii_uppercase : string := "ABCDEFGHIJKLMNOPQRSTUVWXYZ".

(** [s.index(c)] for a constant [s] of ASCII characters and the character
    of code point [c]; [None] when [c] is not in [s], which is also the
    test [c in s]. *)
Fixpoint str_index (s : string) (c : nat) : option nat :=
  match s with
  | EmptyString => None
  | String d s' =>
      if (nat_of_ascii d =? c)%nat then Some 0%nat else S <$> str_index s' c
  end.

(** The [try] block of [Human.shoot] up to the call of [hit]: the row and
    column passed on, or the [ValueError] of a line that does not unpack
    into two characters, fails the test or has no [int]. *)
Definition read_shot {U : Unicode} (line : str) : res (Z * Z) :=
  match upper line with
  | [y; x] =>
      match str_index ascii_uppercase y with
      | Some row =>
          if negb (isdigit x) then Raise ValueError
          else
            match int_of_char x with
            | Some col => Ok (Z.of_nat row, col - 1)
            | None => Raise ValueError
            end
      | None => Raise ValueError
      end
  | _ => Raise ValueError
  end.

(** The [try] block of [Human.shoot] on one console line. *)
Definition Human_try {U : Unicode} (target : Board) (line : str)
    : res (bool * Report) * Board :=
  match read_shot line with
  | Ok (row, col) => hit target row col
  | Raise e => (Raise e, target)
  end.

(** [Human.shoot]: one console line per attempt; [input] raises
    [EOFError] when the console has no more lines.  The value returned is
    [Some flag] for a Python [bool] and [None] for Python's [None]. *)
Fixpoint Human_shoot {U : Unicode} (target : Board) (lines : list str)
    : res (option bool) * Board * list str :=
  match lines with
  | [] => (Raise EOFError, target, [])
  | line :: rest =>
      match Human_try target line with
      | (Ok (flag, _), b') => (Ok (Some flag), b', rest)
      | (Raise e, b') =>
          match e with
          | ValueError | IndexBoardError | ShootError =>
              after_retry (Human_shoot b' rest)
          | _ => (Raise e, b', rest)
          end
      end
  end.

(** ** The game controller *)

Inductive Who : Type := TheHuman | TheAI.

Record SeaBattle : Type := mkSeaBattle {
  _human : Player;
  _ai : Player;
  _turn : option Who
}.

(** The console lines still to be read and the random numbers still to be
    drawn. *)
Record World : Type := mkWorld {
  stdin : list str;
  entropy : list Z
}.

Definition SeaBattle_bool (g : SeaBattle) : bool :=
  Player_bool (_human g) && Player_bool (_ai g).

Definition _move_ships (g : SeaBattle) (rnd : list Z)
    : option (res unit * SeaBattle * list Z) :=
  match move_ships (board (_ai g)) rnd with
  | Some (Ok _, bai, rnd1) =>
      match move_ships (board (_human g)) rnd1 with
      | Some (o, bhu, rnd2) =>
          Some (o, mkSeaBattle (mkPlayer bhu) (mkPlayer bai) (_turn g), rnd2)
      | None => None
      end
  | Some (Raise e, bai, rnd1) =>
      Some (Raise e, mkSeaBattle (_human g) (mkPlayer bai) (_turn g), rnd1)
  | None => None
  end.

(** [_player_turn]: the player shoots at the other player's board
    ([show] only prints). *)
Definition _player_turn {U : Unicode} (g : SeaBattle) (player : Who)
    (w : World)
    : option (res (option bool) * SeaBattle * World) :=
  match player with
  | TheHuman =>
      let '(r, b', lines') := Human_shoot (board (_ai g)) (stdin w) in
      Some (r, mkSeaBattle (_human g) (mkPlayer b') (_turn g),
            mkWorld lines' (entropy w))
  | TheAI =>
      match AI_shoot (board (_human g)) (entropy w) with
      | Some (r, b', rnd') =>
          Some (r, mkSeaBattle (mkPlayer b') (_ai g) (_turn g),
                mkWorld (stdin w) rnd')
      | None => None
      end
  end.

Definition _change_turn (g : SeaBattle) (rnd : list Z)
    : option (res unit * SeaBattle * list Z) :=
  match _turn g with
  | Some TheHuman =>
      Some (Ok tt, mkSeaBattle (_human g) (_ai g) (Some TheAI), rnd)
  | _ => _move_ships (mkSeaBattle (_human g) (_ai g) (Some TheHuman)) rnd
  end.

(** Python's [not value] on what [shoot] returns. *)
Definition falsy (v : option bool) : bool :=
  match v with Some true => false | _ => true end.

(** One round of the [while] loop of [start], entered with the turn set. *)
Definition play_turn {U : Unicode} (g : SeaBattle) (player : Who) (w : World)
    : option (res unit * SeaBattle * World) :=
  match _player_turn g player w with
  | Some (Ok v, g', w') =>
      if falsy v
      then
        match _change_turn g' (entropy w') with
        | Some (o, g'', rnd') => Some (o, g'', mkWorld (stdin w') rnd')
        | None => None
        end
      else Some (Ok tt, g', w')
  | Some (Raise e, g', w') => Some (Raise e, g', w')
  | None => None
  end.

(** [while self: ...] for at most [fuel] rounds, then the winner. *)
Fixpoint game_loop {U : Unicode} (fuel : nat) (g : SeaBattle) (w : World)
    : option (res Who * SeaBattle * World) :=
  if SeaBattle_bool g
  then
    match fuel, _turn g with
    | S fuel', Some player =>
        match play_turn g player w with
        | Some (Ok _, g', w') => game_loop fuel' g' w'
        | Some (Raise e, g', w') => Some (Raise e, g', w')
        | None => None
        end
    | _, _ => None
    end
  else Some (Ok (if negb (Player_bool (_ai g)) then TheHuman else TheAI), g, w).

Definition start {U : Unicode} (fuel : nat) (g : SeaBattle) (w : World)
    : option (res Who * SeaBattle * World) :=
  game_loop fuel (mkSeaBattle (_human g) (_ai g) (Some TheHuman)) w.

(** [SeaBattle()]: the human's board is built first, then the AI's. *)
Definition SeaBattle_init (rnd : list Z) : option (res SeaBattle * list Z) :=
  match Board_init 10 rnd with
  | Some (Ok bhu, rnd1) =>
      match Board_init 10 rnd1 with
      | Some (Ok bai, rnd2) =>
          Some (Ok (mkSeaBattle (mkPlayer bhu) (mkPlayer bai) None), rnd2)
      | Some (Raise e, rnd2) => Some (Raise e, rnd2)
      | None => None
      end
  | Some (Raise e, rnd1) => Some (Raise e, rnd1)
  | None => None
  end.

(** ** Geometry *)

(** The grid positions [get_board] writes for a ship: the half-open
    rectangle from the start to the finish coordinates. *)
Definition occupies (s : Ship) (px py : Z) : Prop :=
  _x s <= px < fst (get_finish_coords s)
  /\ _y s <= py < snd (get_finish_coords s).

(** The closed box [start_x, finish_x] x [start_y, finish_y]. *)
Definition in_closed_box (s : Ship) (px py : Z) : Prop :=
  _x s <= px <= fst (get_finish_coords s)
  /\ _y s <= py <= snd (get_finish_coords s).

Definition boxes_intersect (s t : Ship) : Prop :=
  exists px py, in_closed_box s px py /\ in_closed_box t px py.

(** ** Well-formed fleets and reachable boards *)

Definition intact (c : Cell) : Prop := _value c = true.

(** A ship as [create] builds it and the operations keep it: a length of
    the fleet, an orientation drawn by [randint(1, 2)], one cell per unit
    of length, and no struck cell while the movement flag is set. *)
Definition ship_ok (s : Ship) : Prop :=
  1 <= _length s <= 4
  /\ (_tp s = 1 \/ _tp s = 2)
  /\ length (_cells s) = Z.to_nat (_length s)
  /\ (_is_move s = true -> Forall intact (_cells s)).

(** What [_check_location_ship] accepts, for every ship of the fleet. *)
Definition fleet_ok (b : Board) : Prop :=
  (forall k s, _ships b !! k = Some s -> is_out_board s (_size b) = false)
  /\ (forall i j s t, i <> j -> _ships b !! i = Some s ->
        _ships b !! j = Some t -> is_collide s t = false).

Definition board_ok (b : Board) : Prop :=
  fleet_ok b /\ Forall ship_ok (_ships b).

(** One completed call of [move_ships] or of [hit] (whether [hit]
    returned or raised). *)
Inductive step : Board -> Board -> Prop :=
  | step_move_ships b rnd b' rnd' :
      move_ships b rnd = Some (Ok tt, b', rnd') -> step b b'
  | step_hit b y x :
      step b (snd (hit b y x)).

(** The boards a program can hold: built by [Board(size)], then moved and
    shot at any number of times. *)
Definition reachable (b : Board) : Prop :=
  exists size rnd b0 rnd',
    Board_init size rnd = Some (Ok b0, rnd') /\ rtc step b0 b.

Definition struck (s : Ship) : Prop :=
  exists i c, _cells s !! i = Some c /\ _value c = false.

(** ** A table of characters for the examples *)

(** Python's functions on ASCII, on the two letters outside ASCII whose
    capital is an ASCII letter (the dotless i, 305, and the long s, 383)
    and on the Arabic-Indic digits (1632 to 1641); every other character
    is kept by [upper] and is no digit.  The properties below hold for
    every table; examples are computed in this one. *)
Definition sample_upper_char (c : nat) : nat :=
  if (c =? 305)%nat then 73%nat
  else if (c =? 383)%nat then 83%nat
  else upper_char c.

Definition sample_isdigit (c : nat) : bool :=
  (48 <=? c)%nat && (c <=? 57)%nat || (1632 <=? c)%nat && (c <=? 1641)%nat.

Definition sample_int (c : nat) : option Z :=
  if (48 <=? c)%nat && (c <=? 57)%nat then Some (Z.of_nat c - 48)
  else if (1632 <=? c)%nat && (c <=? 1641)%nat then Some (Z.of_nat c - 1632)
  else None.

Definition sample_unicode : Unicode.
Proof.
  refine {| upper := fmap sample_upper_char;
            isdigit := sample_isdigit;
            int_of_char := sample_int |}.
  - intros s Hs. induction Hs as [| c s Hc _ IH]; [done |].
    cbn. rewrite IH. f_equal. unfold sample_upper_char, is_ascii in *.
    destruct (Nat.eqb_spec c 305); [lia |].
    destruct (Nat.eqb_spec c 383); [lia | done].
  - intros c Hc. unfold sample_isdigit, is_ascii in *.
    destruct (Nat.leb_spec 1632 c); [lia |]. cbn. by rewrite orb_false_r.
  - intros c Hc. unfold sample_int.
    destruct (Nat.leb_spec 48 c); [| lia].
    destruct (Nat.leb_spec c 57); [done | lia].
  - intros c n. unfold sample_int.
    destruct ((48 <=? c)%nat && (c <=? 57)%nat) eqn:E1.
    + apply andb_true_iff in E1 as [?%Nat.leb_le ?%Nat.leb_le].
      intros [= <-]. lia.
    + destruct ((1632 <=? c)%nat && (c <=? 1641)%nat) eqn:E2; [| done].
      apply andb_true_iff in E2 as [?%Nat.leb_le ?%Nat.leb_le].
      intros [= <-]. lia.
Defined.

(** ** A concrete game *)

(** Ten numbers for the orientations, then one pair per placement: every
    ship is accepted at its first pair. *)
Definition example_draws : list Z :=
  [0; 1; 0; 1; 0; 1; 0; 1; 0; 1;
   0; 0; 5; 0; 0; 2; 7; 0; 7; 3; 0; 4; 2; 4; 4; 4; 6; 5; 8; 5].

Definition example_board : Board :=
  match Board_init 10 example_draws with
  | Some (Ok b, _) => b
  | _ => mkBoard 10 []
  end.

(** The same board after a shot at row 0, column 0 and one [move_ships]. *)
Definition example_board_shot : Board := snd (hit example_board 0 0).

Definition example_board_moved : Board :=
  match move_ships example_board_shot [0; 1; 0; 1; 0; 1; 0; 1; 0; 1] with
  | Some (_, b, _) => b
  | None => example_board_shot
  end.

(** ** Reading the rendered grid *)

(** The entry of row [r], column [c]. *)
Definition grid_cell (g : Grid) (r c : nat) : option Target :=
  match g !! r with
  | Some row => row !! c
  | None => None
  end.

(** [n] rows of [n] entries. *)
Definition grid_sized (n : nat) (g : Grid) : Prop :=
  length g = n /\ Forall (fun row => length row = n) g.

(** Every reference of a grid names a cell of the fleet. *)
Definition refs_valid (ships : list Ship) (g : Grid) : Prop :=
  forall r c k i, grid_cell g r c = Some (CellRef k i) ->
    exists s cell, ships !! k = Some s /\ _cells s !! i = Some cell.

(** The value of the counter [i] of [get_board] when the loops reach the
    position (px, py) of a ship: rows first, then columns. *)
Definition cell_index (s : Ship) (px py : Z) : nat :=
  Z.to_nat (py - _y s) * Z.to_nat (fst (get_finish_coords s) - _x s)
  + Z.to_nat (px - _x s).

(** A row or column number of a grid of [n] rows. *)
Definition in_grid (n : nat) (p : Z) : Prop := 0 <= p < Z.of_nat n.

Definition same_place (s s' : Ship) : Prop :=
  _length s' = _length s /\ _tp s' = _tp s /\ _x s' = _x s /\ _y s' = _y s.

Definition guarded_move (b : Board) (k : nat) (d : Z) : res unit * Board :=
  DefenderMoveShip k (fun b0 => _move_ship b0 k d) b.

Definition placed_from (s p : Ship) : Prop :=
  exists x y, p = set_start_coords s x y.

(** ** Console input, by character codes *)

(** The alphabet position of an ASCII letter of either case. *)
Definition letter_pos (c : nat) : option nat :=
  if (65 <=? c)%nat && (c <=? 90)%nat then Some (c - 65)%nat
  else if (97 <=? c)%nat && (c <=? 122)%nat then Some (c - 97)%nat
  else None.

Definition is_letter (c : nat) : bool :=
  match letter_pos c with Some _ => true | None => false end.

(** The ASCII lines [Human.shoot] passes on to a board of the given size:
    two characters, a letter among the first [size] of the alphabet and a
    digit from 1 to 9 that is at most [size]. *)
Definition well_formed_input (size : Z) (line : str) : Prop :=
  exists l d r,
    line = [l; d]
    /\ letter_pos l = Some r /\ Z.of_nat r < size
    /\ (49 <= d <= 57)%nat
    /\ Z.of_nat d - 48 <= size.

(** The input format in the words of the specification: a row letter
    followed by a column digit 1-9 or by the two-digit column 10. *)
Definition spec_accepts (line : str) : bool :=
  match line with
  | [l; d] => is_letter l && (49 <=? d)%nat && (d <=? 57)%nat
  | [l; d1; d0] => is_letter l && (d1 =? 49)%nat && (d0 =? 48)%nat
  | _ => false
  end.

(** Two players on the example board, the human to shoot. *)
Definition example_game : SeaBattle :=
  mkSeaBattle (mkPlayer example_board) (mkPlayer example_board) (Some TheHuman).

(** ** Counting damage, shifts, typed shots *)

(** The cells of a ship that are not struck, and of a whole fleet. *)
Definition intact_cells (s : Ship) : nat :=
  sum_list ((fun c => if Cell_bool c then 1%nat else 0%nat) <$> _cells s).

Definition afloat (b : Board) : nat := sum_list (intact_cells <$> _ships b).

(** [s'] is [s] moved by [d] along its long axis: [x] for orientation 1,
    [y] otherwise; nothing else differs. *)
Definition shifted_by (d : Z) (s s' : Ship) : Prop :=
  _length s' = _length s /\ _tp s' = _tp s /\ _is_move s' = _is_move s
  /\ _cells s' = _cells s
  /\ (if _tp s =? 1 then _x s' = _x s + d /\ _y s' = _y s
      else _x s' = _x s /\ _y s' = _y s + d).

(** A ship as [Ship(...)] leaves it: free to move, no cell struck. *)
Definition fresh (s : Ship) : Prop :=
  _is_move s = true /\ Forall intact (_cells s).

(** The line a player types for the row and column numbers (from 0) of a
    position: the letter of the row, small or capital, and the digit of
    the column plus one. *)
Definition shot_text (small : bool) (row col : nat) : str :=
  [((if small then 97 else 65) + row)%nat; (49 + col)%nat].

(** A line [Human.shoot] answers by asking again. *)
Definition refused {U : Unicode} (b : Board) (line : str) : Prop :=
  exists e, fst (Human_try b line) = Raise e
    /\ (e = ValueError \/ e = IndexBoardError \/ e = ShootError).

(** Both boards of a game are boards the engine can hold. *)
Definition game_reachable (g : SeaBattle) : Prop :=
  reachable (board (_human g)) /\ reachable (board (_ai g)).

(** [s'] is [s] after more shots and moves: the same length, orientation
    and number of cells, every struck cell still struck, no more intact
    cells than before, and the movement flag still cleared if it was. *)
Definition worn (s s' : Ship) : Prop :=
  _length s' = _length s /\ _tp s' = _tp s
  /\ length (_cells s') = length (_cells s)
  /\ (_is_move s = false -> _is_move s' = false)
  /\ (intact_cells s' <= intact_cells s)%nat
  /\ forall i c, _cells s !! i = Some c -> _value c = false ->
       exists c', _cells s' !! i = Some c' /\ _value c' = false.

(** The grid points of the closed box of a ship, and of a board. *)
Definition box_points (s : Ship) : list (Z * Z) :=
  list_prod (seqZ (_x s) (fst (get_finish_coords s) - _x s + 1))
    (seqZ (_y s) (snd (get_finish_coords s) - _y s + 1)).

Definition grid_points (size : Z) : list (Z * Z) :=
  list_prod (seqZ 0 size) (seqZ 0 size).

(** Random numbers that build a board of size 8: all ships horizontal,
    packed in four bands of two rows. *)
Definition tight_draws : list Z :=
  [0; 0; 0; 0; 0; 0; 0; 0; 0; 0;
   0; 0; 0; 2; 4; 2; 5; 0; 0; 4; 3; 4; 6; 4; 0; 6; 2; 6; 4; 6].

#[global] Instance occupies_dec (s : Ship) (px py : Z) :
  Decision (occupies s px py).
Proof. unfold occupies. apply _. Defined.

(** Random numbers for a board of size 20 and for a second call of
    [create] on it: the layout of [tight_draws], then the same layout ten
    columns to the right. *)
Definition wide_draws : list Z :=
  [0; 0; 0; 0; 0; 0; 0; 0; 0; 0;
   0; 0; 0; 2; 4; 2; 5; 0; 0; 4; 3; 4; 6; 4; 0; 6; 2; 6; 4; 6].

Definition wide_board : Board :=
  match Board_init 20 wide_draws with
  | Some (Ok b, _) => b
  | _ => mkBoard 20 []
  end.

Definition second_draws : list Z :=
  [0; 0; 0; 0; 0; 0; 0; 0; 0; 0;
   10; 0; 10; 2; 14; 2; 15; 0; 10; 4; 13; 4; 16; 4; 10; 6; 12; 6; 14; 6].

Definition twice_board : Board :=
  match create wide_board second_draws with
  | Some (_, b, _) => b
  | None => wide_board
  end.

(** The example game after the human's hit at row A, column 1. *)
Definition example_game_hit : SeaBattle :=
  mkSeaBattle (mkPlayer example_board) (mkPlayer example_board_shot)
    (Some TheHuman).

(** Twenty lines that strike every cell of the example board, and the
    game they end. *)
Definition winning_lines : list str :=
  text <$>
  ["A1"; "A2"; "A3"; "A4"; "A6"; "B6"; "C6"; "C1"; "C2"; "C3";
   "A8"; "B8"; "D8"; "D9"; "E1"; "F1"; "E3"; "E5"; "F7"; "F9"]%string.

Definition example_game_won : SeaBattle :=
  match game_loop (U := sample_unicode) 20 example_game
          (mkWorld winning_lines []) with
  | Some (_, g, _) => g
  | None => example_game
  end.

(** ** Printing the board *)

(** [Cell.__str__]: the two glyphs, as the bytes written to the console. *)
Definition Cell_str (c : Cell) : string :=
  if _value c then "▢"%string else "▩"%string.

(** [str] of an entry of the rendered grid: the background marker is the
    string ['*'], a reference is the cell it names. *)
Definition Target_str (ships : list Ship) (t : Target) : res string :=
  match t with
  | Star => Ok "*"%string
  | CellRef k i =>
      match ships !! k with
      | Some s =>
          match _cells s !! i with
          | Some c => Ok (Cell_str c)
          | None => Raise IndexError
          end
      | None => Raise IndexError
      end
  end.

Fixpoint res_map {A B} (f : A -> res B) (l : list A) : res (list B) :=
  match l with
  | [] => Ok []
  | a :: l' =>
      v <~ f a ;;
      vs <~ res_map f l' ;;
      Ok (v :: vs)
  end.

(** [str] of a non-negative integer. *)
Fixpoint str_nat_go (fuel n : nat) (acc : string) : string :=
  match fuel with
  | O => acc
  | S fuel' =>
      let acc' := String (ascii_of_nat (48 + n mod 10)) acc in
      if (n / 10 =? 0)%nat then acc' else str_nat_go fuel' (n / 10) acc'
  end.

Definition str_int (n : Z) : string :=
  str_nat_go (S (Z.to_nat n)) (Z.to_nat n) EmptyString.

(** [f'{ascii_uppercase[i]}|' + '|'.join(map(str, row))]. *)
Definition row_text (ships : list Ship) (i : nat) (row : list Target)
    : res string :=
  match String.get i ascii_uppercase with
  | None => Raise IndexError
  | Some letter =>
      cells <~ res_map (Target_str ships) row ;;
      Ok (String letter ("|" ++ String.concat "|" cells))
  end.

(** The generator over [enumerate(self.get_board)], from row number [i]. *)
Fixpoint rows_text (ships : list Ship) (i : nat) (g : Grid)
    : res (list string) :=
  match g with
  | [] => Ok []
  | row :: rest =>
      t <~ row_text ships i row ;;
      ts <~ rows_text ships (S i) rest ;;
      Ok (t :: ts)
  end.

Definition show_header : string :=
  ("X|" ++ String.concat "|" (map str_int (range 1 11)))%string.

Definition newline : string := String (ascii_of_nat 10) EmptyString.

Definition show_rule : string := string_of_list_ascii (replicate 30 "-"%char).

(** [Board.show]: the outcome and the strings passed to [print], one per
    call.  The header is printed before the grid is rendered, and the
    rows are joined before their [print], so an exception in a row leaves
    the header alone on the console. *)
Definition show (b : Board) : res unit * list string :=
  match get_board b with
  | Raise e => (Raise e, [show_header])
  | Ok g =>
      match rows_text (_ships b) 0 g with
      | Raise e => (Raise e, [show_header])
      | Ok rows =>
          (Ok tt, [show_header; String.concat newline rows; show_rule])
      end
  end.

(** Every entry of the grid can be printed. *)
Definition printable (ships : list Ship) (g : Grid) : Prop :=
  forall row t, row ∈ g -> t ∈ row -> exists v, Target_str ships t = Ok v.

(** A board of size 30, too tall for the 26 row letters. *)
Definition tall_board : Board :=
  match Board_init 30 wide_draws with
  | Some (Ok b, _) => b
  | _ => mkBoard 30 []
  end.

(** The pairs of random numbers [_placement_ship] turns down for a ship
    before it accepts one. *)
Fixpoint all_rejected (b : Board) (ship : Ship) (rnd : list Z) : Prop :=
  match rnd with
  | [] => True
  | rx :: ry :: rnd' =>
      _check_location_ship b None
        (set_start_coords ship (randint 0 (_size b - 1) rx)
           (randint 0 (_size b - 1) ry)) = true
      /\ all_rejected b ship rnd'
  | _ => False
  end.

(** ** One ship of [move_ships] *)






(** * Properties *)

Lemma finish_coords_eq s :
  get_finish_coords s
  = (_x s + (if _tp s =? 1 then _length s else 1),
     _y s + (if _tp s =? 1 then 1 else _length s)).
Proof. unfold get_finish_coords. by destruct (_tp s =? 1). Qed.

Lemma is_collide_true s t :
  is_collide s t = true <->
  _x s <= fst (get_finish_coords t) /\ _x t <= fst (get_finish_coords s)
  /\ _y s <= snd (get_finish_coords t) /\ _y t <= snd (get_finish_coords s).
Proof.
  unfold is_collide, get_start_coords.
  destruct (get_finish_coords s) as [x2 y2], (get_finish_coords t) as [x2' y2'].
  cbn [fst snd]. rewrite !andb_true_iff, !Z.leb_le, !Z.geb_le. tauto.
Qed.

Lemma is_collide_sym s t : is_collide s t = is_collide t s.
Proof.
  apply eq_true_iff_eq. rewrite !is_collide_true. tauto.
Qed.

Lemma out_of_false size p : out_of size p = false <-> 0 <= p < size.
Proof.
  unfold out_of. rewrite negb_false_iff, andb_true_iff, Z.leb_le, Z.ltb_lt.
  tauto.
Qed.

Lemma is_out_board_false s size :
  is_out_board s size = false <->
  0 <= _x s < size /\ 0 <= _y s < size
  /\ 0 <= fst (get_finish_coords s) < size
  /\ 0 <= snd (get_finish_coords s) < size.
Proof.
  unfold is_out_board, get_start_coords.
  destruct (get_finish_coords s) as [x2 y2]. cbn [fst snd existsb].
  rewrite !orb_false_iff, !out_of_false. tauto.
Qed.

Lemma no_collide_disjoint s t px py :
  is_collide s t = false -> occupies s px py -> occupies t px py -> False.
Proof.
  intros Hc [Hsx Hsy] [Htx Hty].
  assert (is_collide s t = true) as E; [| congruence].
  apply is_collide_true. lia.
Qed.

(** C7: for ships of non-negative length, [is_collide] holds exactly when
    the closed boxes from the start to the finish coordinates share a
    point; the horizontal 4-ship at (0,0) finishes at (4,1), is inside a
    board of size 10, and collides with the horizontal 2-ship at (2,0). *)
Theorem is_collide_closed_boxes :
  (forall s t : Ship, 0 <= _length s -> 0 <= _length t ->
     (is_collide s t = true <-> boxes_intersect s t))
  /\ (forall s : Ship,
        get_finish_coords s
        = (if _tp s =? 1 then (_x s + _length s, _y s + 1)
           else (_x s + 1, _y s + _length s)))
  /\ get_finish_coords (Ship_init 4 1 0 0) = (4, 1)
  /\ is_out_board (Ship_init 4 1 0 0) 10 = false
  /\ is_collide (Ship_init 2 1 2 0) (Ship_init 4 1 0 0) = true
  /\ is_collide (Ship_init 4 1 0 0) (Ship_init 2 1 2 0) = true.
Proof.
  split; [| split; [| by vm_compute]].
  - intros s t Hs Ht. rewrite is_collide_true. unfold boxes_intersect, in_closed_box.
    rewrite !finish_coords_eq. cbn [fst snd].
    split.
    + intros (H1 & H2 & H3 & H4).
      exists (Z.max (_x s) (_x t)), (Z.max (_y s) (_y t)).
      destruct (_tp s =? 1), (_tp t =? 1); lia.
    + intros (px & py & [? ?] & [? ?]). lia.
  - intros s. unfold get_finish_coords. by destruct (_tp s =? 1).
Qed.

Lemma is_collide_closed_boxes_witness :
  is_collide (Ship_init 2 1 2 0) (Ship_init 4 1 0 0) = true
  <-> boxes_intersect (Ship_init 2 1 2 0) (Ship_init 4 1 0 0).
Proof.
  apply (proj1 is_collide_closed_boxes (Ship_init 2 1 2 0) (Ship_init 4 1 0 0));
    vm_compute; discriminate.
Defined.

(** ** Lists and booleans *)

Lemma existsb_false {A} (f : A -> bool) (l : list A) :
  existsb f l = false <-> forall a, a ∈ l -> f a = false.
Proof.
  induction l as [| a l IH]; cbn.
  - split; [intros _ a Ha; inversion Ha | done].
  - rewrite orb_false_iff, IH. split.
    + intros [Ha Hl] c Hc. apply elem_of_cons in Hc as [-> | Hc]; auto.
    + intros H. split; [apply H; left | intros c Hc; apply H; by right].
Qed.

Lemma elem_of_delete_lookup {A} (l : list A) (k j : nat) (a : A) :
  j <> k -> l !! j = Some a -> a ∈ delete k l.
Proof.
  intros Hne Hj. apply list_elem_of_lookup.
  destruct (decide (j < k)%nat) as [Hlt | Hge].
  - exists j. by rewrite list_lookup_delete_lt.
  - exists (pred j). rewrite list_lookup_delete_ge by lia.
    by replace (S (pred j)) with j by lia.
Qed.

Lemma delete_insert_same {A} (l : list A) (k : nat) (a : A) :
  delete k (<[k := a]> l) = delete k l.
Proof.
  revert k. induction l as [| c l IH]; intros [| k]; cbn; try done.
  f_equal. apply IH.
Qed.

(** ** What the ship operations keep *)

Lemma same_place_finish s s' :
  same_place s s' -> get_finish_coords s' = get_finish_coords s.
Proof.
  intros (Hl & Ht & Hx & Hy). unfold get_finish_coords.
  by rewrite Hl, Ht, Hx, Hy.
Qed.

Lemma same_place_out s s' size :
  same_place s s' -> is_out_board s' size = is_out_board s size.
Proof.
  intros H. unfold is_out_board, get_start_coords.
  rewrite (same_place_finish _ _ H). destruct H as (_ & _ & -> & ->). done.
Qed.

Lemma same_place_collide_l s s' t :
  same_place s s' -> is_collide s' t = is_collide s t.
Proof.
  intros H. unfold is_collide, get_start_coords.
  rewrite (same_place_finish _ _ H). destruct H as (_ & _ & -> & ->). done.
Qed.

Lemma same_place_collide_r s s' t :
  same_place s s' -> is_collide t s' = is_collide t s.
Proof.
  intros H. rewrite !(is_collide_sym t). by apply same_place_collide_l.
Qed.

Lemma Cell_hit_same_place s i : same_place s (Cell_hit s i).
Proof. unfold Cell_hit, hurt, same_place. cbn. by destruct (_is_move s). Qed.

Lemma Cell_hit_is_move s i : _is_move (Cell_hit s i) = false.
Proof. unfold Cell_hit, hurt. cbn. by destruct (_is_move s). Qed.

Lemma Cell_hit_cells s i :
  _cells (Cell_hit s i) = <[i := mkCell false]> (_cells s).
Proof. unfold Cell_hit, hurt. cbn. by destruct (_is_move s). Qed.

Lemma Cell_hit_ok s i : ship_ok s -> ship_ok (Cell_hit s i).
Proof.
  intros (Hl & Ht & Hc & _). pose proof (Cell_hit_same_place s i) as (El & Et & _).
  unfold ship_ok. rewrite El, Et, Cell_hit_cells, length_insert, Cell_hit_is_move.
  done.
Qed.

Lemma set_start_coords_id s : set_start_coords s (_x s) (_y s) = s.
Proof. by destruct s. Qed.

Lemma set_start_coords_ok s x y : ship_ok s -> ship_ok (set_start_coords s x y).
Proof. done. Qed.

Lemma move_raise s d e : move s d = Raise e -> e = ShipMoveError /\ _is_move s = false.
Proof.
  unfold move. destruct (_is_move s), (_tp s =? 1); cbn; intros; simplify_eq; done.
Qed.

Lemma move_ok s d s' :
  move s d = Ok s' ->
  _is_move s = true /\ _is_move s' = true /\ _cells s' = _cells s
  /\ _length s' = _length s /\ _tp s' = _tp s
  /\ set_start_coords s' (_x s) (_y s) = s.
Proof.
  unfold move. destruct s as [l t x y m c]; cbn.
  destruct m, (t =? 1); cbn; intros; simplify_eq; done.
Qed.

Lemma move_ship_ok s d s' : move s d = Ok s' -> ship_ok s -> ship_ok s'.
Proof.
  intros Hmv (? & ? & ? & Hd).
  apply move_ok in Hmv as (Hm0 & Hm & Hc & Hl & Ht & _).
  unfold ship_ok. rewrite Hl, Ht, Hc. auto.
Qed.

Lemma move_shifts s d s' : move s d = Ok s' -> shifted_by d s s'.
Proof.
  unfold move, shifted_by. destruct (_is_move s); [| done]. cbn [negb].
  destruct (_tp s =? 1); intros [= <-]; cbn; done.
Qed.

Lemma shifted_by_zero s : shifted_by 0 s s.
Proof.
  unfold shifted_by. destruct (_tp s =? 1); repeat split; lia.
Qed.

(** ** The guarded move *)

Lemma alter_insert_same {A} (f : A -> A) (l : list A) (k : nat) (a : A) :
  alter f k (<[k := a]> l) = <[k := f a]> l.
Proof.
  revert k. induction l as [| c l IH]; intros [| k]; cbn; try done.
  f_equal. apply IH.
Qed.

Lemma Board_eta b : mkBoard (_size b) (_ships b) = b.
Proof. by destruct b. Qed.

(** A guarded attempt either raises [ShipMoveError] and leaves the board
    as it was, or returns with the ship moved to a place the board
    accepts. *)
Lemma guarded_move_cases b k d :
  (guarded_move b k d = (Raise ShipMoveError, b)
   /\ exists s, _ships b !! k = Some s
      /\ (_is_move s = false
          \/ exists s', move s d = Ok s'
             /\ _check_location_ship
                  (mkBoard (_size b) (<[k := s']> (_ships b))) (Some k) s' = true))
  \/ (guarded_move b k d = (Ok tt, b) /\ _ships b !! k = None)
  \/ (exists s s',
        _ships b !! k = Some s /\ move s d = Ok s'
        /\ _check_location_ship
             (mkBoard (_size b) (<[k := s']> (_ships b))) (Some k) s' = false
        /\ guarded_move b k d
           = (Ok tt, mkBoard (_size b) (<[k := s']> (_ships b)))).
Proof.
  unfold guarded_move, DefenderMoveShip, _move_ship.
  destruct (_ships b !! k) as [s |] eqn:Hk; [| right; left; done].
  unfold get_start_coords.
  destruct (move s d) as [s' | e] eqn:Hmv.
  - destruct (_check_location_ship _ (Some k) s') eqn:Hchk; cbn.
    + left. split; [| exists s; split; [done | right; eauto]].
      f_equal. rewrite alter_insert_same.
      apply move_ok in Hmv as (_ & _ & _ & _ & _ & ->).
      rewrite list_insert_id by done. apply Board_eta.
    + right; right. exists s, s'. done.
  - apply move_raise in Hmv as [-> Hm]. cbn. left.
    split; [| exists s; auto]. f_equal.
    rewrite <- (Board_eta b) at 3. f_equal.
    apply list_eq. intros j. rewrite list_lookup_alter.
    case_decide; [subst j; rewrite Hk; cbn; by rewrite set_start_coords_id | done].
Qed.

Lemma move_ship_at_cases b k d :
  move_ship_at b k d = (fst (guarded_move b k d), snd (guarded_move b k d))
    /\ fst (guarded_move b k d) = Ok tt
  \/ fst (guarded_move b k d) = Raise ShipMoveError
     /\ snd (guarded_move b k d) = b
     /\ (move_ship_at b k d = (Ok tt, snd (guarded_move b k (- d)))
         /\ fst (guarded_move b k (- d)) = Ok tt
         \/ move_ship_at b k d = (Ok tt, b)
            /\ guarded_move b k (- d) = (Raise ShipMoveError, b)).
Proof.
  unfold move_ship_at. fold (guarded_move b k d).
  destruct (guarded_move_cases b k d) as [[E _] | [[E _] | (s & s' & _ & _ & _ & E)]];
    rewrite E; cbn; auto.
  right. split; [done |]. split; [done |].
  fold (guarded_move b k (- d)).
  destruct (guarded_move_cases b k (- d))
    as [[E' _] | [[E' _] | (t & t' & _ & _ & _ & E')]];
    rewrite E'; cbn; auto.
Qed.

(** ** The invariant of the fleet *)

Lemma check_location_false b me ship :
  _check_location_ship b me ship = false <->
  is_out_board ship (_size b) = false
  /\ forall other, other ∈ others b me -> is_collide ship other = false.
Proof.
  unfold _check_location_ship. by rewrite orb_false_iff, existsb_false.
Qed.

Lemma board_ok_replace b k s s' :
  board_ok b -> _ships b !! k = Some s -> ship_ok s' ->
  _check_location_ship (mkBoard (_size b) (<[k := s']> (_ships b))) (Some k) s'
    = false ->
  board_ok (mkBoard (_size b) (<[k := s']> (_ships b))).
Proof.
  intros [[Hout Hcol] Hwf] Hk Hs' [Ho Hc]%check_location_false.
  cbn in Ho, Hc. rewrite delete_insert_same in Hc.
  assert (k < length (_ships b))%nat as Hlt by (by eapply lookup_lt_Some).
  split; [split |]; cbn.
  - intros j t. rewrite list_lookup_insert by done.
    case_decide as Hd; [destruct Hd as [-> _]; intros [= <-]; done |].
    intros Hj. apply Hout in Hj. done.
  - intros i j t u Hij. 
    destruct (decide (i = k)) as [-> | Hik], (decide (j = k)) as [-> | Hjk];
      try done.
    + rewrite list_lookup_insert_eq, list_lookup_insert_ne by done.
      intros [= <-] Hj. apply Hc. by eapply elem_of_delete_lookup.
    + rewrite list_lookup_insert_eq, list_lookup_insert_ne by done.
      intros Hi [= <-]. rewrite is_collide_sym. apply Hc.
      by eapply elem_of_delete_lookup.
    + rewrite !list_lookup_insert_ne by done. by apply Hcol.
  - by apply Forall_insert.
Qed.

Lemma guarded_move_ok b k d :
  board_ok b ->
  board_ok (snd (guarded_move b k d))
  /\ _size (snd (guarded_move b k d)) = _size b
  /\ length (_ships (snd (guarded_move b k d))) = length (_ships b).
Proof.
  intros Hb.
  destruct (guarded_move_cases b k d)
    as [[E _] | [[E _] | (s & s' & Hk & Hmv & Hchk & E)]]; rewrite E; cbn;
    try done.
  split; [| by rewrite length_insert].
  eapply board_ok_replace; try done.
  eapply move_ship_ok; [done |]. destruct Hb as [_ Hwf].
  by eapply Forall_lookup_1.
Qed.

Lemma move_ship_at_returns b k d : fst (move_ship_at b k d) = Ok tt.
Proof.
  destruct (move_ship_at_cases b k d) as [[E E'] | (_ & _ & [[E _] | [E _]])];
    rewrite E; done.
Qed.

Lemma move_ship_at_ok b k d :
  board_ok b ->
  board_ok (snd (move_ship_at b k d))
  /\ _size (snd (move_ship_at b k d)) = _size b
  /\ length (_ships (snd (move_ship_at b k d))) = length (_ships b).
Proof.
  intros Hb.
  destruct (move_ship_at_cases b k d) as [[E _] | (_ & _ & [[E _] | [E _]])];
    rewrite E; cbn; try done; by apply guarded_move_ok.
Qed.

Lemma move_ships_from_ok ks : forall b rnd o b' rnd',
  board_ok b -> move_ships_from ks b rnd = Some (o, b', rnd') ->
  o = Ok tt /\ board_ok b' /\ _size b' = _size b
  /\ length (_ships b') = length (_ships b).
Proof.
  induction ks as [| k ks IH]; intros b rnd o b' rnd' Hb; cbn.
  - intros [= <- <- <-]. done.
  - destruct rnd as [| r rnd]; [done |].
    pose proof (move_ship_at_returns b k (choice_direction r)) as Ho.
    pose proof (move_ship_at_ok b k (choice_direction r) Hb) as (Hb1 & Hs1 & Hl1).
    destruct (move_ship_at b k (choice_direction r)) as [o1 b1]; cbn in *.
    subst o1. intros H. apply IH in H as (-> & ? & ? & ?); [| done].
    split; [done |]. split; [done |]. split; congruence.
Qed.

Lemma move_ships_ok b rnd o b' rnd' :
  board_ok b -> move_ships b rnd = Some (o, b', rnd') ->
  o = Ok tt /\ board_ok b' /\ _size b' = _size b
  /\ length (_ships b') = length (_ships b).
Proof. apply move_ships_from_ok. Qed.

Lemma hit_cases b y x :
  (exists e, hit b y x = (Raise e, b))
  \/ hit b y x = (Ok (false, Miss), b)
  \/ exists k i s c,
       Board_getitem b (y, x) = Ok (CellRef k i)
       /\ _ships b !! k = Some s /\ _cells s !! i = Some c /\ _value c = true
       /\ hit b y x
          = (Ok (true, if Ship_bool (Cell_hit s i) then Wounded else Sunk),
             mkBoard (_size b) (<[k := Cell_hit s i]> (_ships b))).
Proof.
  unfold hit.
  destruct (existsb _ _); [left; eauto |].
  destruct (Board_getitem b (y, x)) as [[| k i] | e] eqn:Hg; [by auto | | by eauto].
  destruct (_ships b !! k) as [s |] eqn:Hk; [| by eauto].
  destruct (_cells s !! i) as [c |] eqn:Hi; [| by eauto].
  unfold Cell_bool. destruct (_value c) eqn:Hv; cbn; [| by eauto].
  right; right. exists k, i, s, c. done.
Qed.

Lemma hit_ok b y x :
  board_ok b ->
  board_ok (snd (hit b y x)) /\ _size (snd (hit b y x)) = _size b
  /\ length (_ships (snd (hit b y x))) = length (_ships b).
Proof.
  intros Hb.
  destruct (hit_cases b y x) as [[e E] | [E | (k & i & s & c & _ & Hk & Hi & Hv & E)]];
    rewrite E; cbn; try done.
  split; [| by rewrite length_insert].
  eapply board_ok_replace; try done.
  - apply Cell_hit_ok. destruct Hb as [_ Hwf]. by eapply Forall_lookup_1.
  - destruct Hb as [[Hout Hcol] _]. apply check_location_false.
    unfold others. cbn [_ships _size]. rewrite delete_insert_same.
    split; [| intros t Ht].
    + rewrite (same_place_out s); [by eapply Hout | apply Cell_hit_same_place].
    + rewrite (same_place_collide_l s); [| apply Cell_hit_same_place].
      apply list_elem_of_lookup in Ht as [j Hj].
      rewrite list_lookup_delete in Hj. case_decide.
      * eapply (Hcol k j); [lia | done..].
      * eapply (Hcol k (S j)); [lia | done..].
Qed.

(** ** Building the fleet *)

Lemma randint_range a b r : a <= b -> a <= randint a b r <= b.
Proof.
  intros Hab. unfold randint.
  pose proof (Z.mod_pos_bound r (b - a + 1)). lia.
Qed.

Lemma Ship_init_ok length tp x y :
  1 <= length <= 4 -> tp = 1 \/ tp = 2 -> ship_ok (Ship_init length tp x y).
Proof.
  intros Hl Ht. unfold ship_ok, Ship_init, range. cbn.
  rewrite length_map, length_seqZ, Z.sub_0_r.
  repeat split; try done; try lia.
  intros _. apply Forall_forall. intros c Hc.
  apply list_elem_of_In, in_map_iff in Hc as (? & <- & _). done.
Qed.

(** The ships [create] builds: one per length, in order, each with the
    orientation its own random number gives. *)
Lemma new_ships_spec lengths : forall rnd ships rnd',
  new_ships lengths rnd = Some (ships, rnd') ->
  exists tps, rnd = tps ++ rnd' /\ length tps = length lengths
    /\ ships = zip_with (fun l r => Ship_init l (randint 1 2 r) 0 0) lengths tps.
Proof.
  induction lengths as [| l lengths IH]; intros rnd ships rnd'; cbn.
  - intros [= <- <-]. by exists [].
  - destruct rnd as [| r rnd]; [done |].
    destruct (new_ships lengths rnd) as [[ships0 rnd0] |] eqn:E; [| done].
    intros [= <- <-]. apply IH in E as (tps & -> & Hlen & ->).
    exists (r :: tps). cbn. by rewrite Hlen.
Qed.

Lemma new_ships_ok lengths rnd ships rnd' :
  Forall (fun l => 1 <= l <= 4) lengths ->
  new_ships lengths rnd = Some (ships, rnd') -> Forall ship_ok ships.
Proof.
  intros Hl (tps & _ & _ & ->)%new_ships_spec.
  revert tps. induction Hl as [| l lengths Hl _ IH]; intros [| r tps]; cbn;
    try by constructor.
  constructor; [| apply IH].
  apply Ship_init_ok; [done |].
  pose proof (randint_range 1 2 r). lia.
Qed.

Lemma fleet_lengths_eq : fleet_lengths = [4; 3; 3; 2; 2; 2; 1; 1; 1; 1].
Proof. reflexivity. Qed.

Lemma fleet_lengths_bounds : Forall (fun l => 1 <= l <= 4) fleet_lengths.
Proof. rewrite fleet_lengths_eq. repeat constructor; lia. Qed.

Lemma board_ok_append b ship :
  board_ok b -> ship_ok ship -> _check_location_ship b None ship = false ->
  board_ok (mkBoard (_size b) (_ships b ++ [ship])).
Proof.
  intros [[Hout Hcol] Hwf] Hs [Ho Hc]%check_location_false.
  unfold others in Hc.
  split; [split |]; cbn [_ships _size].
  - intros k s [[_ Hk] | [_ ->]]%lookup_snoc_Some; [by eapply Hout | done].
  - intros i j s t Hij [[_ Hi] | [Ei ->]]%lookup_snoc_Some
      [[_ Hj] | [Ej ->]]%lookup_snoc_Some.
    + by eapply Hcol.
    + rewrite is_collide_sym. apply Hc. by eapply list_elem_of_lookup_2.
    + apply Hc. by eapply list_elem_of_lookup_2.
    + lia.
  - apply Forall_app. split; [done | by constructor].
Qed.

Lemma placement_ship_spec n : forall rnd b ship o b' rnd',
  (length rnd <= n)%nat -> board_ok b -> ship_ok ship ->
  _placement_ship b ship rnd = Some (o, b', rnd') ->
  (o = Raise ValueError /\ b' = b /\ _size b <= 0)
  \/ (o = Ok tt /\ board_ok b' /\ 0 < _size b
      /\ exists x y,
           b' = mkBoard (_size b) (_ships b ++ [set_start_coords ship x y])).
Proof.
  induction n as [| n IH]; intros rnd b ship o b' rnd' Hn Hb Hs;
    destruct rnd as [| rx [| ry rnd]]; cbn in *;
    destruct (_size b - 1 <? 0) eqn:Hsz;
    try (intros [= <- <- <-]; left; split; [done | split; [done | lia]]);
    try done; try lia.
  destruct (_check_location_ship b None _) eqn:Hchk; cbn.
  - intros H.
    assert (length rnd <= n)%nat as Hn' by lia.
    pose proof (IH _ _ _ _ _ _ Hn' Hb (set_start_coords_ok _ _ _ Hs) H) as H'.
    destruct H' as [H' | (Eo & Hb' & Hpos & x & y & Eb)]; [by left | right].
    split; [done |]. split; [done |]. split; [done |]. by exists x, y.
  - intros [= <- <- <-]. right. split; [done |].
    split; [by apply board_ok_append |]. split; [lia | eauto].
Qed.

Lemma place_all_spec ships : forall b rnd b' rnd',
  board_ok b -> Forall ship_ok ships ->
  place_all b ships rnd = Some (Ok tt, b', rnd') ->
  board_ok b' /\ _size b' = _size b
  /\ exists placed, _ships b' = _ships b ++ placed
       /\ Forall2 placed_from ships placed.
Proof.
  induction ships as [| ship ships IH]; intros b rnd b' rnd' Hb Hs; cbn.
  - intros [= <- <-]. split; [done |]. split; [done |].
    exists []. by rewrite app_nil_r.
  - apply Forall_cons in Hs as [Hs Hss].
    destruct (_placement_ship b ship rnd) as [[[o b1] rnd1] |] eqn:E; [| done].
    eapply placement_ship_spec in E; [| done..].
    destruct E as [(-> & _ & _) | (-> & Hb1 & _ & x & y & ->)]; [done |].
    intros H. apply IH in H as (Hb' & Hsz & placed & Hp & HF); [| done..].
    cbn in *. split; [done |]. split; [done |].
    exists (set_start_coords ship x y :: placed).
    rewrite Hp, <- app_assoc. split; [done |].
    constructor; [by exists x, y | done].
Qed.

Lemma board_ok_empty size : board_ok (mkBoard size []).
Proof.
  split; [split |]; cbn; [intros k s | intros i j s t _ | constructor];
    by rewrite lookup_nil.
Qed.

Lemma Board_init_spec size rnd b rnd' :
  Board_init size rnd = Some (Ok b, rnd') ->
  board_ok b /\ _size b = size
  /\ exists tps rest,
       rnd = tps ++ rest /\ length tps = 10%nat
       /\ Forall2 placed_from
            (zip_with (fun l r => Ship_init l (randint 1 2 r) 0 0)
               fleet_lengths tps)
            (_ships b).
Proof.
  unfold Board_init, create.
  destruct (new_ships fleet_lengths rnd) as [[ships rnd1] |] eqn:En; [| done].
  destruct (place_all _ ships rnd1) as [[[[[] | e] b1] rnd2] |] eqn:Ep;
    [| done | done].
  intros [= <- <-].
  pose proof (new_ships_ok _ _ _ _ fleet_lengths_bounds En) as Hok.
  apply new_ships_spec in En as (tps & -> & Hlen & ->).
  apply place_all_spec in Ep as (Hb & Hsz & placed & Hp & HF);
    [| apply board_ok_empty | done].
  cbn in *. subst placed. split; [done |]. split; [done |].
  exists tps, rnd1. done.
Qed.

Lemma step_ok b b' : step b b' -> board_ok b ->
  board_ok b' /\ _size b' = _size b /\ length (_ships b') = length (_ships b).
Proof.
  intros [b0 rnd b1 rnd' Hm | b0 y x] Hb.
  - by apply move_ships_ok in Hm as (_ & ? & ? & ?).
  - by apply hit_ok.
Qed.

Lemma steps_ok b b' : rtc step b b' -> board_ok b ->
  board_ok b' /\ _size b' = _size b /\ length (_ships b') = length (_ships b).
Proof.
  induction 1 as [| b b1 b2 Hs _ IH]; [done |].
  intros Hb. apply (step_ok _ _ Hs) in Hb as (Hb1 & Hs1 & Hl1).
  destruct (IH Hb1) as (? & ? & ?). split; [done |]. split; congruence.
Qed.

Lemma reachable_ok b : reachable b -> board_ok b.
Proof.
  intros (size & rnd & b0 & rnd' & Hinit & Hsteps).
  apply Board_init_spec in Hinit as [Hb0 _].
  by apply (steps_ok _ _ Hsteps).
Qed.

Lemma example_board_moved_reachable : reachable example_board_moved.
Proof.
  exists 10, example_draws, example_board, [].
  split; [by vm_compute |].
  apply rtc_l with example_board_shot; [apply step_hit |].
  apply rtc_once.
  apply step_move_ships with (rnd := [0; 1; 0; 1; 0; 1; 0; 1; 0; 1]) (rnd' := []).
  by vm_compute.
Defined.

Lemma occupies_in_bounds s size px py :
  is_out_board s size = false -> occupies s px py ->
  0 <= px < size /\ 0 <= py < size.
Proof.
  intros (? & ? & ? & ?)%is_out_board_false [? ?]. lia.
Qed.

(** C1: on every board built by the constructor and then changed by
    [move_ships] and [hit] calls, each ship passes the bounds test, so
    the positions it occupies are inside the grid, and two different ships
    do not collide, so they share no position. *)
Theorem fleet_in_bounds_and_disjoint (b : Board) :
  reachable b ->
  (forall k s, _ships b !! k = Some s ->
     is_out_board s (_size b) = false
     /\ forall px py, occupies s px py ->
          0 <= px < _size b /\ 0 <= py < _size b)
  /\ (forall i j s t, i <> j ->
        _ships b !! i = Some s -> _ships b !! j = Some t ->
        is_collide s t = false
        /\ forall px py, ~ (occupies s px py /\ occupies t px py)).
Proof.
  intros [[Hout Hcol] _]%reachable_ok. split.
  - intros k s Hk. split; [by eapply Hout |].
    intros px py. apply occupies_in_bounds. by eapply Hout.
  - intros i j s t Hij Hi Hj.
    assert (is_collide s t = false) as Hc by (by eapply Hcol).
    split; [done |]. intros px py [Hs Ht].
    by eapply no_collide_disjoint.
Qed.

Lemma fleet_in_bounds_and_disjoint_witness :
  (forall k s, _ships example_board_moved !! k = Some s ->
     is_out_board s (_size example_board_moved) = false
     /\ forall px py, occupies s px py ->
          0 <= px < _size example_board_moved
          /\ 0 <= py < _size example_board_moved)
  /\ (forall i j s t, i <> j ->
        _ships example_board_moved !! i = Some s ->
        _ships example_board_moved !! j = Some t ->
        is_collide s t = false
        /\ forall px py, ~ (occupies s px py /\ occupies t px py)).
Proof.
  apply (fleet_in_bounds_and_disjoint example_board_moved).
  exact example_board_moved_reachable.
Defined.

Lemma placed_from_fields ships placed :
  Forall2 placed_from ships placed ->
  map _length placed = map _length ships /\ map _tp placed = map _tp ships
  /\ map _is_move placed = map _is_move ships
  /\ map _cells placed = map _cells ships.
Proof.
  induction 1 as [| s p ships placed (x & y & ->) _ IH]; [done |].
  cbn. destruct IH as (-> & -> & -> & ->). done.
Qed.

Lemma new_ships_fields lengths : forall tps,
  length tps = length lengths ->
  map _length (zip_with (fun l r => Ship_init l (randint 1 2 r) 0 0) lengths tps)
    = lengths
  /\ map _tp (zip_with (fun l r => Ship_init l (randint 1 2 r) 0 0) lengths tps)
     = map (randint 1 2) tps.
Proof.
  induction lengths as [| l lengths IH]; intros [| r tps] Hlen; try done.
  cbn in *. destruct (IH tps) as [-> ->]; [lia | done].
Qed.

Lemma placement_ship_appends n : forall rnd b ship b' rnd',
  (length rnd <= n)%nat ->
  _placement_ship b ship rnd = Some (Ok tt, b', rnd') ->
  exists x y, b' = mkBoard (_size b) (_ships b ++ [set_start_coords ship x y]).
Proof.
  induction n as [| n IH]; intros rnd b ship b' rnd' Hn;
    destruct rnd as [| rx [| ry rnd]]; cbn in Hn |- *;
    destruct (_size b - 1 <? 0); try done; try lia.
  destruct (_check_location_ship b None _); cbn [negb].
  - intros H. apply IH in H as (x & y & ->); [| lia]. by exists x, y.
  - intros [= <- <-]. eauto.
Qed.

Lemma place_all_appends ships : forall b rnd b' rnd',
  place_all b ships rnd = Some (Ok tt, b', rnd') ->
  _size b' = _size b
  /\ exists placed, _ships b' = _ships b ++ placed
       /\ Forall2 placed_from ships placed.
Proof.
  induction ships as [| ship ships IH]; intros b rnd b' rnd'; cbn.
  - intros [= <- <-]. split; [done |]. exists []. by rewrite app_nil_r.
  - destruct (_placement_ship b ship rnd) as [[[[[] | e] b1] rnd1] |] eqn:E;
      [| done | done].
    apply (placement_ship_appends (length rnd)) in E as (x & y & ->); [| done].
    intros H. apply IH in H as (Hsz & placed & Hp & HF). cbn in *.
    split; [done |]. exists (set_start_coords ship x y :: placed).
    rewrite Hp, <- app_assoc. split; [done |].
    constructor; [by exists x, y | done].
Qed.

(** C6, as the code has it: a call of [create] that returns has appended
    ten ships to the fleet, of lengths 4, 3, 3, 2, 2, 2, 1, 1, 1, 1 in
    this order, and left the ships already there in place; the
    orientation of the i-th new ship is the value [randint(1, 2)] gave
    for the i-th random number of the call, 1 (horizontal) or 2
    (vertical).  The constructor calls it on an empty fleet, so the board
    it returns owns exactly these ten ships. *)
Theorem create_fleet_composition :
  (forall (b : Board) (rnd : list Z) (b' : Board) (rnd' : list Z),
     create b rnd = Some (Ok tt, b', rnd') ->
     _size b' = _size b
     /\ exists new,
          _ships b' = _ships b ++ new
          /\ length new = 10%nat
          /\ map _length new = [4; 3; 3; 2; 2; 2; 1; 1; 1; 1]
          /\ map _tp new = map (randint 1 2) (take 10 rnd)
          /\ Forall (fun s => _tp s = 1 \/ _tp s = 2) new)
  /\ (forall (size : Z) (rnd : list Z) (b : Board) (rnd' : list Z),
        Board_init size rnd = Some (Ok b, rnd') ->
        length (_ships b) = 10%nat
        /\ map _length (_ships b) = [4; 3; 3; 2; 2; 2; 1; 1; 1; 1]
        /\ map _tp (_ships b) = map (randint 1 2) (take 10 rnd)
        /\ Forall (fun s => _tp s = 1 \/ _tp s = 2) (_ships b)).
Proof.
  assert (forall b rnd b' rnd',
            create b rnd = Some (Ok tt, b', rnd') ->
            _size b' = _size b
            /\ exists new,
                 _ships b' = _ships b ++ new
                 /\ length new = 10%nat
                 /\ map _length new = [4; 3; 3; 2; 2; 2; 1; 1; 1; 1]
                 /\ map _tp new = map (randint 1 2) (take 10 rnd)
                 /\ Forall (fun s => _tp s = 1 \/ _tp s = 2) new) as Hcreate.
  { intros b rnd b' rnd'. unfold create.
    destruct (new_ships fleet_lengths rnd) as [[ships rnd1] |] eqn:En; [| done].
    apply new_ships_spec in En as (tps & -> & Hlen & ->).
    intros (Hsz & new & Hnew & HF)%place_all_appends.
    split; [done |]. exists new. split; [done |].
    apply placed_from_fields in HF as (Hl & Ht & _).
    destruct (new_ships_fields fleet_lengths tps) as [El Et]; [done |].
    rewrite El in Hl. rewrite Et in Ht.
    assert (map _tp new = map (randint 1 2) (take 10 (tps ++ rnd1))) as Htp
      by (by rewrite Ht, take_app_length').
    split; [by rewrite <- (length_map _length), Hl |].
    split; [done |]. split; [done |].
    apply Forall_forall. intros s Hs.
    assert (_tp s ∈ map _tp new) as Hin
      by (by apply list_elem_of_fmap_2).
    rewrite Ht in Hin. apply list_elem_of_fmap in Hin as (r & -> & _).
    pose proof (randint_range 1 2 r). lia. }
  split; [done |].
  intros size rnd b rnd'. unfold Board_init.
  destruct (create (mkBoard size []) rnd) as [[[[[] | e] b1] rnd1] |] eqn:E;
    [| done | done].
  intros [= <- <-]. apply Hcreate in E as (_ & new & Hnew & H).
  cbn in Hnew. by rewrite Hnew.
Qed.

Lemma create_fleet_composition_witness :
  _size twice_board = _size wide_board
  /\ exists new,
       _ships twice_board = _ships wide_board ++ new
       /\ length new = 10%nat
       /\ map _length new = [4; 3; 3; 2; 2; 2; 1; 1; 1; 1]
       /\ map _tp new = map (randint 1 2) (take 10 second_draws)
       /\ Forall (fun s => _tp s = 1 \/ _tp s = 2) new.
Proof.
  apply (proj1 create_fleet_composition wide_board second_draws twice_board []).
  by vm_compute.
Defined.

(** Against the wording of C6 in the specification: after a second call
    of [create] the board owns twenty ships. *)
Lemma second_create_leaves_twenty_ships :
  Board_init 20 wide_draws = Some (Ok wide_board, [])
  /\ create wide_board second_draws = Some (Ok tt, twice_board, [])
  /\ length (_ships wide_board) = 10%nat
  /\ length (_ships twice_board) = 20%nat.
Proof. by vm_compute. Qed.

(** ** Shots *)

Lemma res_bind_raise {A B} (r : res A) (k : A -> res B) e :
  res_bind r k = Raise e ->
  r = Raise e \/ exists a, r = Ok a /\ k a = Raise e.
Proof. destruct r as [a | e']; cbn; [eauto | intros [= ->]; auto]. Qed.

Lemma py_getitem_raise {A} (l : list A) i e :
  py_getitem l i = Raise e -> e = IndexError.
Proof.
  unfold py_getitem. destruct (py_index _ i) as [n |]; [| congruence].
  destruct (l !! n); congruence.
Qed.

Lemma py_setitem_raise {A} (l : list A) i v e :
  py_setitem l i v = Raise e -> e = IndexError.
Proof. unfold py_setitem. destruct (py_index _ i); congruence. Qed.

Lemma Ship_getitem_raise s i e : Ship_getitem s i = Raise e -> e = IndexError.
Proof. unfold Ship_getitem. destruct (_ !! i); congruence. Qed.

Lemma paint_row_raise k s y xs : forall i g e,
  paint_row k s y xs i g = Raise e -> e = IndexError.
Proof.
  induction xs as [| x xs IH]; intros i g e; cbn; [done |].
  intros [H | (c & _ & H)]%res_bind_raise; [by eapply Ship_getitem_raise |].
  apply res_bind_raise in H as [H | (row & _ & H)]; [by eapply py_getitem_raise |].
  apply res_bind_raise in H as [H | (row' & _ & H)]; [by eapply py_setitem_raise |].
  apply res_bind_raise in H as [H | (g' & _ & H)]; [by eapply py_setitem_raise |].
  by eapply IH.
Qed.

Lemma paint_ship_raise k s xs ys : forall i g e,
  paint_ship k s ys xs i g = Raise e -> e = IndexError.
Proof.
  induction ys as [| y ys IH]; intros i g e; cbn; [done |].
  intros [H | (gi & _ & H)]%res_bind_raise; [by eapply paint_row_raise |].
  by eapply IH.
Qed.

Lemma paint_fleet_raise ships : forall k g e,
  paint_fleet k ships g = Raise e -> e = IndexError.
Proof.
  induction ships as [| s ships IH]; intros k g e; cbn; [done |].
  destruct (get_finish_coords s) as [x2 y2].
  intros [H | (gi & _ & H)]%res_bind_raise; [by eapply paint_ship_raise |].
  by eapply IH.
Qed.

Lemma Board_getitem_raise b item e :
  Board_getitem b item = Raise e -> e = IndexError.
Proof.
  destruct item as [row col]. unfold Board_getitem, get_board.
  intros [H | (g & _ & H)]%res_bind_raise; [by eapply paint_fleet_raise |].
  apply res_bind_raise in H as [H | (r & _ & H)]; by eapply py_getitem_raise.
Qed.

Lemma bounds_check b y x :
  existsb (out_of (_size b)) [x; y] = false
  <-> 0 <= y < _size b /\ 0 <= x < _size b.
Proof. cbn. rewrite !orb_false_iff, !out_of_false. tauto. Qed.

(** Inside the grid the first test of [hit] fails. *)
Ltac pass_bounds_check :=
  match goal with
  | |- context [existsb (out_of (_size ?b)) [?x; ?y]] =>
      replace (existsb (out_of (_size b)) [x; y]) with false
        by (symmetry; by apply bounds_check)
  end.

(** ** Moves *)

Lemma choice_direction_cases r : choice_direction r = 1 \/ choice_direction r = -1.
Proof. unfold choice_direction. destruct (r mod 2 =? 0); auto. Qed.








(** ** Damage is permanent *)

Lemma struck_not_movable s : ship_ok s -> struck s -> _is_move s = false.
Proof.
  intros (_ & _ & _ & Hd) (i & c & Hi & Hv).
  destruct (_is_move s); [| done].
  specialize (Hd eq_refl). eapply Forall_lookup_1 in Hd; [| done].
  unfold intact in Hd. congruence.
Qed.

Lemma move_blocked s d : _is_move s = false -> move s d = Raise ShipMoveError.
Proof. unfold move. by intros ->. Qed.

Lemma guarded_move_keeps b j d k s :
  _ships b !! k = Some s -> _is_move s = false ->
  _ships (snd (guarded_move b j d)) !! k = Some s.
Proof.
  intros Hk Hm.
  destruct (guarded_move_cases b j d)
    as [[E _] | [[E _] | (t & t' & Hj & Hmv & _ & E)]]; rewrite E; cbn;
    try done.
  destruct (decide (j = k)) as [-> | Hne].
  - apply move_ok in Hmv as [Hmt _]. congruence.
  - by rewrite list_lookup_insert_ne.
Qed.

Lemma move_ship_at_keeps b j d k s :
  _ships b !! k = Some s -> _is_move s = false ->
  _ships (snd (move_ship_at b j d)) !! k = Some s.
Proof.
  intros Hk Hm.
  destruct (move_ship_at_cases b j d) as [[E _] | (_ & _ & [[E _] | [E _]])];
    rewrite E; cbn; try done; by apply guarded_move_keeps.
Qed.

Lemma move_ships_from_keeps ks : forall b rnd o b' rnd' k s,
  move_ships_from ks b rnd = Some (o, b', rnd') ->
  _ships b !! k = Some s -> _is_move s = false ->
  _ships b' !! k = Some s.
Proof.
  induction ks as [| j ks IH]; intros b rnd o b' rnd' k s; cbn.
  - by intros [= <- <- <-].
  - destruct rnd as [| r rnd]; [done |].
    pose proof (move_ship_at_returns b j (choice_direction r)) as Ho.
    pose proof (move_ship_at_keeps b j (choice_direction r) k s) as Hkeep.
    destruct (move_ship_at b j (choice_direction r)) as [o1 b1]; cbn in *.
    subst o1. intros H Hk Hm. eapply IH; eauto.
Qed.

Lemma Cell_hit_struck s i c : _cells s !! i = Some c -> struck (Cell_hit s i).
Proof.
  intros Hi. exists i, (mkCell false). rewrite Cell_hit_cells.
  split; [| done]. apply list_lookup_insert_eq. by eapply lookup_lt_Some.
Qed.

(** A struck ship that cannot move stays where it is, struck and unable
    to move, over one call of [move_ships] or [hit]. *)
Lemma step_keeps_damaged b b' k s :
  step b b' -> _ships b !! k = Some s -> _is_move s = false -> struck s ->
  exists s', _ships b' !! k = Some s' /\ _is_move s' = false /\ struck s'
    /\ get_start_coords s' = get_start_coords s.
Proof.
  intros [b0 rnd b1 rnd' Hmv | b0 y x] Hk Hm Hs.
  - exists s. split; [by eapply move_ships_from_keeps | done].
  - destruct (hit_cases b0 y x)
      as [[e E] | [E | (k' & i & t & c & _ & Hk' & Hi & _ & E)]];
      rewrite E; cbn; [by exists s | by exists s |].
    destruct (decide (k' = k)) as [-> | Hne].
    + exists (Cell_hit s i). assert (t = s) as -> by congruence.
      split; [apply list_lookup_insert_eq; by eapply lookup_lt_Some |].
      split; [apply Cell_hit_is_move |].
      split; [by eapply Cell_hit_struck |].
      destruct (Cell_hit_same_place s i) as (_ & _ & Hx & Hy).
      unfold get_start_coords. by rewrite Hx, Hy.
    + exists s. by rewrite list_lookup_insert_ne.
Qed.

(** C4: on a board the program can hold, a ship with a struck cell has
    its movement flag cleared and [move] raises [ShipMoveError] for it;
    after any further calls of [move_ships] and [hit] the flag is still
    cleared, [move] still raises, and the start coordinates are the
    same. *)
Theorem damaged_ship_never_moves (b : Board) (k : nat) (s : Ship) :
  reachable b -> _ships b !! k = Some s -> struck s ->
  _is_move s = false
  /\ (forall d, move s d = Raise ShipMoveError)
  /\ forall b', rtc step b b' ->
       exists s', _ships b' !! k = Some s'
         /\ _is_move s' = false
         /\ (forall d, move s' d = Raise ShipMoveError)
         /\ get_start_coords s' = get_start_coords s.
Proof.
  intros [_ Hwf]%reachable_ok Hk Hs.
  assert (_is_move s = false) as Hm.
  { apply struck_not_movable; [by eapply Forall_lookup_1 | done]. }
  split; [done |]. split; [intros d; by apply move_blocked |].
  intros b' Hsteps. clear Hwf.
  revert s Hk Hs Hm.
  induction Hsteps as [b | b b1 b2 Hst _ IH]; intros s Hk Hs Hm.
  - exists s. split; [done |]. split; [done |].
    split; [intros d; by apply move_blocked | done].
  - destruct (step_keeps_damaged _ _ _ _ Hst Hk Hm Hs)
      as (s1 & Hk1 & Hm1 & Hs1 & Hc1).
    destruct (IH s1 Hk1 Hs1 Hm1) as (s' & ? & ? & ? & Hc).
    exists s'. rewrite Hc, Hc1. done.
Qed.

Lemma damaged_ship_never_moves_witness :
  exists s', _ships example_board_moved !! 0%nat = Some s'
    /\ _is_move s' = false
    /\ (forall d, move s' d = Raise ShipMoveError)
    /\ get_start_coords s' = (0, 0).
Proof.
  refine (proj2 (proj2 (damaged_ship_never_moves example_board_shot 0%nat
            (mkShip 4 1 0 0 false
               [mkCell false; mkCell true; mkCell true; mkCell true])
            _ _ _)) example_board_moved _).
  - exists 10, example_draws, example_board, [].
    split; [by vm_compute |]. apply rtc_once, step_hit.
  - by vm_compute.
  - exists 0%nat, (mkCell false). by vm_compute.
  - apply rtc_once.
    apply step_move_ships with (rnd := [0; 1; 0; 1; 0; 1; 0; 1; 0; 1]) (rnd' := []).
    by vm_compute.
Defined.

(** ** The rendered grid *)

Lemma py_index_in (n : nat) (i : Z) :
  0 <= i < Z.of_nat n -> py_index n i = Some (Z.to_nat i).
Proof.
  intros Hi. unfold py_index.
  replace ((0 <=? i) && (i <? Z.of_nat n)) with true; [done |].
  symmetry. apply andb_true_iff. rewrite Z.leb_le, Z.ltb_lt. lia.
Qed.

Lemma py_getitem_in {A} (l : list A) (i : Z) (a : A) :
  0 <= i -> l !! Z.to_nat i = Some a -> py_getitem l i = Ok a.
Proof.
  intros Hi Ha. unfold py_getitem.
  rewrite py_index_in, Ha; [done |].
  apply lookup_lt_Some in Ha. lia.
Qed.

Lemma py_setitem_in {A} (l : list A) (i : Z) (v : A) :
  0 <= i < Z.of_nat (length l) ->
  py_setitem l i v = Ok (<[Z.to_nat i := v]> l).
Proof. intros Hi. unfold py_setitem. by rewrite py_index_in. Qed.

Lemma grid_sized_row n g r row :
  grid_sized n g -> g !! r = Some row -> length row = n.
Proof. intros [_ Hrows] Hr. by eapply Forall_lookup_1 in Hrows. Qed.

Lemma grid_sized_update n g r c row v :
  grid_sized n g -> g !! r = Some row ->
  grid_sized n (<[r := <[c := v]> row]> g).
Proof.
  intros Hg Hr. pose proof (grid_sized_row _ _ _ _ Hg Hr) as Hlen.
  destruct Hg as [Hn Hrows]. split; [by rewrite length_insert |].
  apply Forall_insert; [done |]. cbn beta. by rewrite length_insert.
Qed.

Lemma grid_cell_update g r c row v r' c' :
  g !! r = Some row -> (c < length row)%nat ->
  grid_cell (<[r := <[c := v]> row]> g) r' c'
  = if decide (r' = r /\ c' = c) then Some v else grid_cell g r' c'.
Proof.
  intros Hr Hc. unfold grid_cell.
  destruct (decide (r' = r)) as [-> | Hne].
  - rewrite list_lookup_insert_eq, Hr by (by eapply lookup_lt_Some).
    destruct (decide (c' = c)) as [-> | Hne].
    + rewrite list_lookup_insert_eq by done. by rewrite decide_True.
    + rewrite list_lookup_insert_ne by done. rewrite decide_False; [done | tauto].
  - rewrite list_lookup_insert_ne by done. rewrite decide_False; [done | tauto].
Qed.

Lemma blank_sized size : grid_sized (Z.to_nat size) (blank size).
Proof.
  unfold blank. split; [apply length_replicate |].
  apply Forall_replicate, length_replicate.
Qed.

Lemma blank_cell size r c :
  (r < Z.to_nat size)%nat -> (c < Z.to_nat size)%nat ->
  grid_cell (blank size) r c = Some Star.
Proof.
  intros Hr Hc. unfold grid_cell, blank.
  rewrite lookup_replicate_2 by done. by apply lookup_replicate_2.
Qed.

Section Painting.
Variables (n : nat) (k : nat) (s : Ship).

Lemma paint_row_spec (y : Z) (xs : list Z) : forall (i0 : nat) (g : Grid),
  grid_sized n g -> in_grid n y -> Forall (in_grid n) xs -> NoDup xs ->
  (i0 + length xs <= length (_cells s))%nat ->
  exists g',
    paint_row k s y xs i0 g = Ok (g', (i0 + length xs)%nat)
    /\ grid_sized n g'
    /\ (forall j x, xs !! j = Some x ->
          grid_cell g' (Z.to_nat y) (Z.to_nat x)
          = Some (CellRef k (i0 + j)))
    /\ (forall r c, r <> Z.to_nat y \/ Z.of_nat c ∉ xs ->
          grid_cell g' r c = grid_cell g r c).
Proof.
  induction xs as [| x xs IH]; intros i0 g Hg Hy Hxs Hnd Hlen; cbn.
  - exists g. rewrite Nat.add_0_r. split; [done |]. split; [done |].
    split; [intros j x; by rewrite lookup_nil | done].
  - apply Forall_cons in Hxs as [Hx Hxs].
    apply NoDup_cons in Hnd as [Hnx Hnd]. cbn in Hlen.
    destruct (lookup_lt_is_Some_2 (_cells s) i0) as [c0 Hc0]; [lia |].
    unfold Ship_getitem. rewrite Hc0. cbn [res_bind].
    destruct (lookup_lt_is_Some_2 g (Z.to_nat y)) as [row Hrow].
    { destruct Hg as [-> _]. unfold in_grid in Hy. lia. }
    pose proof (grid_sized_row _ _ _ _ Hg Hrow) as Hrl.
    rewrite (py_getitem_in g y row) by (unfold in_grid in Hy; done || lia).
    cbn [res_bind].
    rewrite py_setitem_in by (unfold in_grid in Hx; lia). cbn [res_bind].
    rewrite py_setitem_in
      by (destruct Hg as [-> _]; unfold in_grid in Hy; lia).
    cbn [res_bind].
    set (g1 := <[Z.to_nat y := <[Z.to_nat x := CellRef k i0]> row]> g).
    assert (grid_sized n g1) as Hg1 by (by apply grid_sized_update).
    destruct (IH (S i0) g1 Hg1 Hy Hxs Hnd) as (g' & E & Hg' & Ha & Hb);
      [lia |].
    exists g'. rewrite E. split; [f_equal; f_equal; lia |].
    split; [done |]. split.
    + intros [| j] x' Hj; cbn in Hj.
      * injection Hj as <-. rewrite Hb.
        -- unfold g1. rewrite grid_cell_update; [| done |].
           ++ rewrite decide_True by done. f_equal. f_equal. lia.
           ++ unfold in_grid in Hx. lia.
        -- right. unfold in_grid in Hx. by rewrite Z2Nat.id by lia.
      * rewrite (Ha j x' Hj). f_equal. f_equal. lia.
    + intros r c Hrc. rewrite Hb.
      * unfold g1. rewrite grid_cell_update; [| done |].
        -- rewrite decide_False; [done |]. intros [-> ->].
           destruct Hrc as [? | Hc]; [done |]. apply Hc.
           unfold in_grid in Hx. rewrite Z2Nat.id by lia. left.
        -- unfold in_grid in Hx. lia.
      * destruct Hrc as [? | Hc]; [by left | right].
        intros Hin. apply Hc. by right.
Qed.

Lemma paint_ship_spec (xs : list Z) (ys : list Z) :
  forall (i0 : nat) (g : Grid),
  grid_sized n g -> Forall (in_grid n) ys -> NoDup ys ->
  Forall (in_grid n) xs -> NoDup xs ->
  (i0 + length ys * length xs <= length (_cells s))%nat ->
  exists g' i',
    paint_ship k s ys xs i0 g = Ok (g', i')
    /\ grid_sized n g'
    /\ (forall jy y jx x, ys !! jy = Some y -> xs !! jx = Some x ->
          grid_cell g' (Z.to_nat y) (Z.to_nat x)
          = Some (CellRef k (i0 + jy * length xs + jx)))
    /\ (forall r c, Z.of_nat r ∉ ys \/ Z.of_nat c ∉ xs ->
          grid_cell g' r c = grid_cell g r c).
Proof.
  induction ys as [| y ys IH]; intros i0 g Hg Hys Hndy Hxs Hndx Hlen; cbn.
  - exists g, i0. split; [done |]. split; [done |].
    split; [intros jy y; by rewrite lookup_nil | done].
  - apply Forall_cons in Hys as [Hy Hys].
    apply NoDup_cons in Hndy as [Hny Hndy]. cbn in Hlen.
    destruct (paint_row_spec y xs i0 g Hg Hy Hxs Hndx)
      as (g1 & E1 & Hg1 & Ha1 & Hb1); [lia |].
    rewrite E1. cbn [res_bind fst snd].
    destruct (IH (i0 + length xs)%nat g1 Hg1 Hys Hndy Hxs Hndx)
      as (g' & i' & E & Hg' & Ha & Hb); [lia |].
    exists g', i'. split; [done |]. split; [done |]. split.
    + intros [| jy] y' jx x Hjy Hjx; cbn in Hjy.
      * injection Hjy as <-. rewrite Hb.
        -- rewrite (Ha1 jx x Hjx). f_equal. f_equal. lia.
        -- left. unfold in_grid in Hy. by rewrite Z2Nat.id by lia.
      * rewrite (Ha jy y' jx x Hjy Hjx). f_equal. f_equal. lia.
    + intros r c Hrc. rewrite Hb.
      * apply Hb1. destruct Hrc as [Hr | Hc]; [left | by right].
        intros ->. apply Hr. unfold in_grid in Hy.
        rewrite Z2Nat.id by lia. left.
      * destruct Hrc as [Hr | Hc]; [left | by right].
        intros Hin. apply Hr. by right.
Qed.
End Painting.

Lemma finish_coords_cases s :
  get_finish_coords s = (_x s + _length s, _y s + 1)
  \/ get_finish_coords s = (_x s + 1, _y s + _length s).
Proof. unfold get_finish_coords. destruct (_tp s =? 1); auto. Qed.

Lemma ship_extent s :
  ship_ok s ->
  (length (range (_y s) (snd (get_finish_coords s)))
   * length (range (_x s) (fst (get_finish_coords s))))%nat
  = length (_cells s).
Proof.
  intros (Hl & Ht & Hc & _). unfold range. rewrite !length_seqZ, Hc.
  destruct (finish_coords_cases s) as [-> | ->]; cbn [fst snd];
    rewrite !Z.add_simpl_l; change (Z.to_nat 1) with 1%nat; lia.
Qed.

Lemma occupies_range s px py :
  occupies s px py <->
  px ∈ range (_x s) (fst (get_finish_coords s))
  /\ py ∈ range (_y s) (snd (get_finish_coords s)).
Proof. unfold occupies, range. rewrite !elem_of_seqZ. lia. Qed.

Lemma range_lookup a b p :
  a <= p < b -> range a b !! Z.to_nat (p - a) = Some p.
Proof. intros Hp. unfold range. apply lookup_seqZ. lia. Qed.

Lemma range_in_grid n a b :
  0 <= a -> b <= Z.of_nat n -> Forall (in_grid n) (range a b).
Proof.
  intros Ha Hb. apply Forall_forall. intros p Hp.
  unfold range in Hp. apply elem_of_seqZ in Hp. unfold in_grid. lia.
Qed.

(** One ship painted on a grid it fits in: its positions hold references
    to its cells, numbered as the loops count them, and every other
    position is untouched. *)
Lemma paint_one_ship n k s g :
  grid_sized n g -> ship_ok s -> is_out_board s (Z.of_nat n) = false ->
  exists g' i',
    paint_ship k s (range (_y s) (snd (get_finish_coords s)))
      (range (_x s) (fst (get_finish_coords s))) 0 g = Ok (g', i')
    /\ grid_sized n g'
    /\ (forall px py, occupies s px py ->
          grid_cell g' (Z.to_nat py) (Z.to_nat px)
          = Some (CellRef k (cell_index s px py)))
    /\ (forall r c, ~ occupies s (Z.of_nat c) (Z.of_nat r) ->
          grid_cell g' r c = grid_cell g r c).
Proof.
  intros Hg Hs (Hx & Hy & Hx2 & Hy2)%is_out_board_false.
  destruct (paint_ship_spec n k s
              (range (_x s) (fst (get_finish_coords s)))
              (range (_y s) (snd (get_finish_coords s))) 0 g)
    as (g' & i' & E & Hg' & Ha & Hb); try done.
  - apply range_in_grid; lia.
  - apply NoDup_seqZ.
  - apply range_in_grid; lia.
  - apply NoDup_seqZ.
  - rewrite ship_extent by done. lia.
  - exists g', i'. split; [done |]. split; [done |]. split.
    + intros px py [Hpx Hpy].
      rewrite (Ha (Z.to_nat (py - _y s)) py (Z.to_nat (px - _x s)) px).
      * unfold cell_index, range. by rewrite length_seqZ.
      * by apply range_lookup.
      * by apply range_lookup.
    + intros r c Hno. apply Hb.
      destruct (decide (Z.of_nat r ∈ range (_y s) (snd (get_finish_coords s))))
        as [Hr | Hr]; [| by left].
      right. intros Hc. apply Hno. by apply occupies_range.
Qed.

Lemma cell_index_bound s px py :
  ship_ok s -> occupies s px py ->
  (cell_index s px py < length (_cells s))%nat.
Proof.
  intros (Hl & Ht & Hc & _) [Hx Hy]. unfold cell_index. rewrite Hc.
  destruct (finish_coords_cases s) as [E | E]; rewrite E in *;
    cbn [fst snd] in *; rewrite Z.add_simpl_l.
  - replace (py - _y s) with 0 by lia. cbn. lia.
  - replace (px - _x s) with 0 by lia. change (Z.to_nat 1) with 1%nat. lia.
Qed.

Lemma paint_fleet_spec n ships : forall k0 g,
  grid_sized n g ->
  Forall (fun s => ship_ok s /\ is_out_board s (Z.of_nat n) = false) ships ->
  (forall i j s t, i <> j -> ships !! i = Some s -> ships !! j = Some t ->
     is_collide s t = false) ->
  exists g',
    paint_fleet k0 ships g = Ok g'
    /\ grid_sized n g'
    /\ (forall j s px py, ships !! j = Some s -> occupies s px py ->
          grid_cell g' (Z.to_nat py) (Z.to_nat px)
          = Some (CellRef (k0 + j) (cell_index s px py)))
    /\ (forall r c,
          (forall s, s ∈ ships -> ~ occupies s (Z.of_nat c) (Z.of_nat r)) ->
          grid_cell g' r c = grid_cell g r c).
Proof.
  induction ships as [| s ships IH]; intros k0 g Hg Hall Hcol; cbn.
  - exists g. split; [done |]. split; [done |].
    split; [intros j s; by rewrite lookup_nil | done].
  - apply Forall_cons in Hall as [[Hs Ho] Hall].
    unfold get_start_coords.
    destruct (paint_one_ship n k0 s g Hg Hs Ho) as (g1 & i1 & E1 & Hg1 & Ha1 & Hb1).
    destruct (get_finish_coords s) as [x2 y2] eqn:Ef. cbn [fst snd] in E1.
    rewrite E1. cbn [res_bind fst].
    destruct (IH (S k0) g1 Hg1 Hall) as (g' & E & Hg' & Ha & Hb).
    { intros i j t u Hij Hi Hj. by apply (Hcol (S i) (S j)); [lia | |]. }
    exists g'. split; [done |]. split; [done |]. split.
    + intros [| j] t px py Hj Hocc; cbn in Hj.
      * injection Hj as <-.
        apply is_out_board_false in Ho as (Hx & Hy & Hx2 & Hy2).
        destruct Hocc as [Hpx Hpy].
        replace (grid_cell g' (Z.to_nat py) (Z.to_nat px))
          with (grid_cell g1 (Z.to_nat py) (Z.to_nat px)).
        -- rewrite Nat.add_0_r. by apply Ha1.
        -- symmetry. apply Hb. intros u Hu Hocc'.
           apply list_elem_of_lookup in Hu as [i Hi].
           rewrite !Z2Nat.id in Hocc' by lia.
           eapply (no_collide_disjoint s u px py); [| done | done].
           by apply (Hcol 0%nat (S i)).
      * rewrite (Ha j t px py Hj Hocc). f_equal. f_equal. lia.
    + intros r c Hno. rewrite Hb.
      * apply Hb1. apply Hno. left.
      * intros u Hu. apply Hno. by right.
Qed.

Lemma grid_cell_getitem b g y x t :
  get_board b = Ok g -> 0 <= y -> 0 <= x ->
  grid_cell g (Z.to_nat y) (Z.to_nat x) = Some t ->
  Board_getitem b (y, x) = Ok t.
Proof.
  intros Hg Hy Hx Hc. unfold Board_getitem. rewrite Hg. cbn [res_bind].
  unfold grid_cell in Hc. destruct (g !! Z.to_nat y) as [row |] eqn:Hr; [| done].
  rewrite (py_getitem_in g y row) by done. cbn [res_bind].
  by apply py_getitem_in.
Qed.

(** On a board that passes the checks, [get_board] returns, a position a
    ship occupies holds the reference to that ship's cell, and a position
    no ship occupies holds the background marker. *)
Lemma Board_getitem_spec b y x :
  board_ok b -> 0 <= y < _size b -> 0 <= x < _size b ->
  (forall k s, _ships b !! k = Some s -> occupies s x y ->
     Board_getitem b (y, x) = Ok (CellRef k (cell_index s x y)))
  /\ ((forall s, s ∈ _ships b -> ~ occupies s x y) ->
      Board_getitem b (y, x) = Ok Star).
Proof.
  intros [[Hout Hcol] Hwf] Hy Hx.
  assert (Z.of_nat (Z.to_nat (_size b)) = _size b) as Hsz by lia.
  destruct (paint_fleet_spec (Z.to_nat (_size b)) (_ships b) 0
              (blank (_size b)))
    as (g & E & Hg & Ha & Hb).
  - apply blank_sized.
  - apply Forall_lookup. intros k s Hk. rewrite Hsz.
    split; [by eapply Forall_lookup_1 | by eapply Hout].
  - done.
  - split.
    + intros k s Hk Hocc. apply (grid_cell_getitem b g); try done; try lia.
      by rewrite (Ha k s x y Hk Hocc).
    + intros Hno. apply (grid_cell_getitem b g); try done; try lia.
      rewrite Hb.
      * apply blank_cell; lia.
      * intros s Hs. rewrite !Z2Nat.id by lia. by apply Hno.
Qed.

Lemma occupies_inner s size px py :
  is_out_board s size = false -> occupies s px py ->
  0 <= px < size - 1 /\ 0 <= py < size - 1.
Proof.
  intros (? & ? & ? & ?)%is_out_board_false [? ?]. lia.
Qed.

(** C8: on every board the program can hold, no ship occupies a position
    of the last row or of the last column, the rendered grid holds the
    background marker there, and a shot at such a position prints "miss",
    returns false and leaves the board as it was. *)
Theorem last_row_and_column_empty (b : Board) :
  reachable b ->
  (forall k s px py, _ships b !! k = Some s -> occupies s px py ->
     px < _size b - 1 /\ py < _size b - 1)
  /\ (forall y x, 0 <= y < _size b -> 0 <= x < _size b ->
        y = _size b - 1 \/ x = _size b - 1 ->
        Board_getitem b (y, x) = Ok Star
        /\ hit b y x = (Ok (false, Miss), b)).
Proof.
  intros Hb%reachable_ok.
  assert (forall k s px py, _ships b !! k = Some s -> occupies s px py ->
            px < _size b - 1 /\ py < _size b - 1) as Hin.
  { intros k s px py Hk Hocc. destruct Hb as [[Hout _] _].
    pose proof (occupies_inner s (_size b) px py (Hout k s Hk) Hocc). lia. }
  split; [done |].
  intros y x Hy Hx Hlast.
  assert (Board_getitem b (y, x) = Ok Star) as Hg.
  { apply Board_getitem_spec; try done.
    intros s [k Hk]%list_elem_of_lookup Hocc.
    pose proof (Hin k s x y Hk Hocc). lia. }
  split; [done |]. unfold hit.
  pass_bounds_check.
  by rewrite Hg.
Qed.

Lemma last_row_and_column_empty_witness :
  Board_getitem example_board_moved (9, 4) = Ok Star
  /\ hit example_board_moved 9 4 = (Ok (false, Miss), example_board_moved).
Proof.
  apply (proj2 (last_row_and_column_empty example_board_moved
                  example_board_moved_reachable) 9 4);
    vm_compute; auto; split; congruence.
Defined.

(** ** References of the grid *)

Lemma res_bind_ok {A B} (r : res A) (k : A -> res B) (v : B) :
  res_bind r k = Ok v -> exists a, r = Ok a /\ k a = Ok v.
Proof. destruct r as [a | e]; cbn; [eauto | done]. Qed.

Lemma py_getitem_ok {A} (l : list A) (i : Z) (a : A) :
  py_getitem l i = Ok a ->
  exists n, py_index (length l) i = Some n /\ l !! n = Some a.
Proof.
  unfold py_getitem. destruct (py_index _ i) as [n |]; [| done].
  destruct (l !! n) as [a' |] eqn:E; [| done]. intros [= <-]. eauto.
Qed.

Lemma py_setitem_ok {A} (l : list A) (i : Z) (v : A) (l' : list A) :
  py_setitem l i v = Ok l' ->
  exists n, py_index (length l) i = Some n /\ l' = <[n := v]> l.
Proof.
  unfold py_setitem. destruct (py_index _ i) as [n |]; [| done].
  intros [= <-]. eauto.
Qed.

Lemma refs_valid_update ships g n m row k i s cell :
  refs_valid ships g -> g !! n = Some row ->
  ships !! k = Some s -> _cells s !! i = Some cell ->
  refs_valid ships (<[n := <[m := CellRef k i]> row]> g).
Proof.
  intros Hg Hn Hk Hi r c k' i' Hc. unfold grid_cell in Hc.
  destruct (decide (r = n)) as [-> | Hne].
  - rewrite list_lookup_insert_eq in Hc by (by eapply lookup_lt_Some).
    apply list_lookup_insert_Some in Hc as [(_ & [= <- <-] & _) | [_ Hc]];
      [eauto |].
    apply (Hg n c). unfold grid_cell. by rewrite Hn.
  - rewrite list_lookup_insert_ne in Hc by done. by apply (Hg r c).
Qed.

Lemma paint_row_valid ships k s y xs : forall i g g' i',
  refs_valid ships g -> ships !! k = Some s ->
  paint_row k s y xs i g = Ok (g', i') -> refs_valid ships g'.
Proof.
  induction xs as [| x xs IH]; intros i g g' i' Hg Hk; cbn.
  - by intros [= <- _].
  - intros (c & Hc & H)%res_bind_ok.
    apply res_bind_ok in H as (row & (n & Hn & Hrow)%py_getitem_ok & H).
    apply res_bind_ok in H as (row' & (m & _ & ->)%py_setitem_ok & H).
    apply res_bind_ok in H as (g1 & (n' & Hn' & ->)%py_setitem_ok & H).
    assert (n' = n) as -> by congruence.
    eapply IH; [| done | done].
    unfold Ship_getitem in Hc.
    destruct (_cells s !! i) as [cell |] eqn:Hi; [| done].
    by eapply refs_valid_update.
Qed.

Lemma paint_ship_valid ships k s xs ys : forall i g g' i',
  refs_valid ships g -> ships !! k = Some s ->
  paint_ship k s ys xs i g = Ok (g', i') -> refs_valid ships g'.
Proof.
  induction ys as [| y ys IH]; intros i g g' i' Hg Hk; cbn.
  - by intros [= <- _].
  - intros ([g1 i1] & H1 & H)%res_bind_ok. cbn in H.
    eapply IH; [| done | done]. by eapply paint_row_valid.
Qed.

Lemma paint_fleet_valid ships rest : forall done_ g g',
  ships = done_ ++ rest -> refs_valid ships g ->
  paint_fleet (length done_) rest g = Ok g' -> refs_valid ships g'.
Proof.
  induction rest as [| s rest IH]; intros done_ g g' Hs Hg; cbn.
  - by intros [= <-].
  - unfold get_start_coords. destruct (get_finish_coords s) as [x2 y2].
    intros ([g1 i1] & H1 & H)%res_bind_ok. cbn in H.
    apply (IH (done_ ++ [s]) g1 g').
    + by rewrite <- app_assoc.
    + eapply paint_ship_valid; [done | | done].
      rewrite Hs. by apply list_lookup_middle.
    + by rewrite length_app, Nat.add_1_r.
Qed.

(** On any board, a reference read from the rendered grid names a cell of
    a ship of the fleet. *)
Lemma Board_getitem_valid b item k i :
  Board_getitem b item = Ok (CellRef k i) ->
  exists s cell, _ships b !! k = Some s /\ _cells s !! i = Some cell.
Proof.
  destruct item as [row col]. unfold Board_getitem, get_board.
  intros (g & Hg & H)%res_bind_ok.
  apply res_bind_ok in H as (r & (n & _ & Hn)%py_getitem_ok & H).
  apply py_getitem_ok in H as (m & _ & Hm).
  apply (paint_fleet_valid (_ships b) (_ships b) []) in Hg; [| done |].
  - apply (Hg n m). unfold grid_cell. by rewrite Hn.
  - intros r' c' k' i' Hc. unfold grid_cell, blank in Hc.
    destruct (replicate _ _ !! r') as [row' |] eqn:Hr; [| done].
    apply lookup_replicate in Hr as [-> _].
    by apply lookup_replicate in Hc as [? _].
Qed.

(** ** Shots at ships and at the background *)

Lemma hit_out_of_bounds b y x :
  ~ (0 <= y < _size b /\ 0 <= x < _size b) ->
  hit b y x = (Raise IndexBoardError, b).
Proof.
  intros Hno. unfold hit. destruct (existsb _ _) eqn:Hb; [done |].
  by apply bounds_check in Hb.
Qed.

Lemma hit_raise_kinds b y x e :
  fst (hit b y x) = Raise e ->
  (e = IndexBoardError /\ ~ (0 <= y < _size b /\ 0 <= x < _size b))
  \/ ((e = ShootError \/ e = IndexError)
      /\ 0 <= y < _size b /\ 0 <= x < _size b).
Proof.
  unfold hit. destruct (existsb _ _) eqn:Hb.
  - intros [= <-]. left. split; [done |].
    rewrite <- bounds_check. congruence.
  - apply bounds_check in Hb. intros H. right. split; [| done].
    destruct (Board_getitem b (y, x)) as [[| k i] | e'] eqn:Hg; cbn in H.
    + done.
    + destruct (_ships b !! k) as [s |]; [| injection H as <-; auto].
      destruct (_cells s !! i) as [c |]; [| injection H as <-; auto].
      destruct (negb (Cell_bool c)); [injection H as <-; auto | done].
    + apply Board_getitem_raise in Hg. injection H as <-. auto.
Qed.

Lemma Board_getitem_ship b y x k s :
  board_ok b -> _ships b !! k = Some s -> occupies s x y ->
  Board_getitem b (y, x) = Ok (CellRef k (cell_index s x y))
  /\ 0 <= y < _size b /\ 0 <= x < _size b
  /\ exists c, _cells s !! cell_index s x y = Some c.
Proof.
  intros Hb Hk Hocc.
  assert (0 <= x < _size b /\ 0 <= y < _size b) as [Hx Hy].
  { destruct Hb as [[Hout _] _]. eapply occupies_in_bounds; [| done].
    by eapply Hout. }
  split; [by apply Board_getitem_spec |]. split; [done |]. split; [done |].
  apply lookup_lt_is_Some_2, cell_index_bound; [| done].
  destruct Hb as [_ Hwf]. by eapply Forall_lookup_1.
Qed.

Lemma hit_struck_cell b y x k i s c :
  0 <= y < _size b -> 0 <= x < _size b ->
  Board_getitem b (y, x) = Ok (CellRef k i) ->
  _ships b !! k = Some s -> _cells s !! i = Some c -> _value c = false ->
  hit b y x = (Raise ShootError, b).
Proof.
  intros Hy Hx Hg Hk Hi Hv. unfold hit.
  pass_bounds_check.
  rewrite Hg, Hk, Hi. unfold Cell_bool. by rewrite Hv.
Qed.

Lemma hit_intact_cell b y x k i s c :
  0 <= y < _size b -> 0 <= x < _size b ->
  Board_getitem b (y, x) = Ok (CellRef k i) ->
  _ships b !! k = Some s -> _cells s !! i = Some c -> _value c = true ->
  hit b y x
  = (Ok (true, if Ship_bool (Cell_hit s i) then Wounded else Sunk),
     mkBoard (_size b) (<[k := Cell_hit s i]> (_ships b))).
Proof.
  intros Hy Hx Hg Hk Hi Hv. unfold hit.
  pass_bounds_check.
  rewrite Hg, Hk, Hi. unfold Cell_bool. by rewrite Hv.
Qed.

Lemma Ship_bool_true s :
  Ship_bool s = true <-> exists j c, _cells s !! j = Some c /\ _value c = true.
Proof.
  unfold Ship_bool. rewrite existsb_exists. split.
  - intros (c & Hin & Hc).
    apply list_elem_of_In, list_elem_of_lookup in Hin as [j Hj]. eauto.
  - intros (j & c & Hj & Hc). exists c. split; [| done].
    apply list_elem_of_In. by eapply list_elem_of_lookup_2.
Qed.

(** C2: [hit] raises [IndexBoardError] exactly when the row or the column
    is outside [0, size); inside the grid, a position whose cell is
    already struck raises [ShootError] (on the boards the program can hold
    that is every position a ship occupies with its cell there struck);
    and whenever [hit] raises, the board is what it was. *)
Theorem hit_errors (b : Board) (y x : Z) :
  (fst (hit b y x) = Raise IndexBoardError
   <-> ~ (0 <= y < _size b /\ 0 <= x < _size b))
  /\ (forall k i s c,
        0 <= y < _size b -> 0 <= x < _size b ->
        Board_getitem b (y, x) = Ok (CellRef k i) ->
        _ships b !! k = Some s -> _cells s !! i = Some c ->
        _value c = false ->
        hit b y x = (Raise ShootError, b))
  /\ (forall k s c,
        reachable b -> _ships b !! k = Some s -> occupies s x y ->
        _cells s !! cell_index s x y = Some c -> _value c = false ->
        hit b y x = (Raise ShootError, b))
  /\ (forall e, fst (hit b y x) = Raise e -> snd (hit b y x) = b).
Proof.
  split; [| split; [| split]].
  - split.
    + intros H. by apply hit_raise_kinds in H as [[_ ?] | [[? | ?] _]].
    + intros Hno. by rewrite hit_out_of_bounds.
  - intros k i s c. apply hit_struck_cell.
  - intros k s c Hb%reachable_ok Hk Hocc Hc Hv.
    destruct (Board_getitem_ship b y x k s Hb Hk Hocc) as (Hg & Hy & Hx & _).
    by eapply hit_struck_cell.
  - intros e He.
    destruct (hit_cases b y x)
      as [[e' E] | [E | (k & i & s & c & _ & _ & _ & _ & E)]];
      rewrite E in *; done.
Qed.

Lemma hit_errors_witness :
  hit example_board_shot 0 0 = (Raise ShootError, example_board_shot).
Proof.
  refine (proj1 (proj2 (proj2 (hit_errors example_board_shot 0 0)))
            0%nat
            (mkShip 4 1 0 0 false
               [mkCell false; mkCell true; mkCell true; mkCell true])
            (mkCell false) _ _ _ _ _).
  - exists 10, example_draws, example_board, [].
    split; [by vm_compute |]. apply rtc_once, step_hit.
  - by vm_compute.
  - vm_compute. repeat split; congruence.
  - by vm_compute.
  - done.
Defined.

(** C3: inside the grid, a position holding an intact cell of ship [k] is
    struck (the cell is cleared, the ship hurt), [hit] returns true and
    prints "wounded" when the ship keeps an intact cell and "sunk" when it
    keeps none; a background position prints "miss", returns false and
    changes nothing.  On the boards the program can hold, the positions
    holding a cell are those a ship occupies and the background is every
    other position.  On the board whose only ship has length 1 at (3,3),
    [hit(3,3)] returns true with "sunk" and a second [hit(3,3)] raises
    [ShootError]. *)
Theorem hit_outcomes :
  (forall (b : Board) (y x : Z),
     0 <= y < _size b -> 0 <= x < _size b ->
     (forall k i s c,
        Board_getitem b (y, x) = Ok (CellRef k i) ->
        _ships b !! k = Some s -> _cells s !! i = Some c ->
        _value c = true ->
        exists s',
          hit b y x
          = (Ok (true, if Ship_bool s' then Wounded else Sunk),
             mkBoard (_size b) (<[k := s']> (_ships b)))
          /\ _cells s' = <[i := mkCell false]> (_cells s)
          /\ _is_move s' = false
          /\ same_place s s'
          /\ (Ship_bool s' = true <->
              exists j c', _cells s' !! j = Some c' /\ _value c' = true))
     /\ (Board_getitem b (y, x) = Ok Star ->
         hit b y x = (Ok (false, Miss), b)))
  /\ (forall (b : Board) (y x : Z),
        reachable b -> 0 <= y < _size b -> 0 <= x < _size b ->
        (forall k s, _ships b !! k = Some s -> occupies s x y ->
           exists c,
             _cells s !! cell_index s x y = Some c
             /\ Board_getitem b (y, x) = Ok (CellRef k (cell_index s x y))
             /\ (_value c = true ->
                 hit b y x
                 = (Ok (true,
                        if Ship_bool (Cell_hit s (cell_index s x y))
                        then Wounded else Sunk),
                    mkBoard (_size b)
                      (<[k := Cell_hit s (cell_index s x y)]> (_ships b)))))
        /\ ((forall k s, _ships b !! k = Some s -> ~ occupies s x y) ->
            hit b y x = (Ok (false, Miss), b)))
  /\ (forall tp,
        let b := mkBoard 10 [Ship_init 1 tp 3 3] in
        fst (hit b 3 3) = Ok (true, Sunk)
        /\ fst (hit (snd (hit b 3 3)) 3 3) = Raise ShootError).
Proof.
  split; [| split].
  - intros b y x Hy Hx.
    assert (existsb (out_of (_size b)) [x; y] = false) as Hb
      by (by apply bounds_check).
    split.
    + intros k i s c Hg Hk Hi Hv. exists (Cell_hit s i).
      split; [by eapply hit_intact_cell |].
      split; [apply Cell_hit_cells |]. split; [apply Cell_hit_is_move |].
      split; [apply Cell_hit_same_place | apply Ship_bool_true].
    + intros Hg. unfold hit. by rewrite Hb, Hg.
  - intros b y x Hb%reachable_ok Hy Hx. split.
    + intros k s Hk Hocc.
      destruct (Board_getitem_ship b y x k s Hb Hk Hocc)
        as (Hg & _ & _ & c & Hc).
      exists c. split; [done |]. split; [done |].
      intros Hv. by eapply hit_intact_cell.
    + intros Hno.
      assert (Board_getitem b (y, x) = Ok Star) as Hg.
      { apply Board_getitem_spec; try done.
        intros s [k Hk]%list_elem_of_lookup. by eapply Hno. }
      unfold hit.
      pass_bounds_check.
      by rewrite Hg.
  - intros tp. destruct tp as [| [p | p |] | p]; by vm_compute.
Qed.

Lemma hit_outcomes_witness :
  exists s',
    hit example_board 0 1
    = (Ok (true, if Ship_bool s' then Wounded else Sunk),
       mkBoard (_size example_board) (<[0%nat := s']> (_ships example_board)))
    /\ _cells s'
       = <[1%nat := mkCell false]>
           [mkCell true; mkCell true; mkCell true; mkCell true]
    /\ _is_move s' = false
    /\ same_place (Ship_init 4 1 0 0) s'
    /\ (Ship_bool s' = true <->
        exists j c', _cells s' !! j = Some c' /\ _value c' = true).
Proof.
  refine (proj1 (proj1 hit_outcomes example_board 0 1 _ _)
            0%nat 1%nat (Ship_init 4 1 0 0) (mkCell true) _ _ _ _);
    vm_compute; try done; split; congruence.
Defined.

(** ** Console input *)

Lemma str_index_uppercase (c : nat) :
  str_index ascii_uppercase c
  = if (65 <=? c)%nat && (c <=? 90)%nat then Some (c - 65)%nat else None.
Proof. do 91 (destruct c as [| c]; [by vm_compute |]). by vm_compute. Qed.

Lemma letter_pos_index (c : nat) :
  str_index ascii_uppercase (upper_char c) = letter_pos c.
Proof. do 123 (destruct c as [| c]; [by vm_compute |]). by vm_compute. Qed.

Lemma upper_char_digit (c : nat) :
  (48 <=? upper_char c)%nat && (upper_char c <=? 57)%nat
  = (48 <=? c)%nat && (c <=? 57)%nat
  /\ ((48 <= c <= 57)%nat -> upper_char c = c)
  /\ (is_ascii c -> is_ascii (upper_char c)).
Proof.
  unfold upper_char, is_ascii.
  destruct ((97 <=? c)%nat && (c <=? 122)%nat) eqn:E; [| done].
  apply andb_true_iff in E as [?%Nat.leb_le ?%Nat.leb_le].
  split; [| lia].
  destruct (Nat.leb_spec 48 (c - 32)), (Nat.leb_spec (c - 32) 57),
    (Nat.leb_spec 48 c), (Nat.leb_spec c 57); cbn; try done; lia.
Qed.

(** What [read_shot] does with a line of ASCII characters, by their
    codes. *)
Lemma read_shot_ascii {U : Unicode} (line : str) :
  Forall is_ascii line ->
  read_shot line
  = match line with
    | [l; d] =>
        match letter_pos l with
        | Some r =>
            if (48 <=? d)%nat && (d <=? 57)%nat
            then Ok (Z.of_nat r, Z.of_nat d - 48 - 1)
            else Raise ValueError
        | None => Raise ValueError
        end
    | _ => Raise ValueError
    end.
Proof.
  intros Ha. unfold read_shot. rewrite (upper_ascii line Ha).
  destruct line as [| l [| d [| e rest]]]; try done.
  cbn [fmap list_fmap]. rewrite letter_pos_index.
  destruct (letter_pos l) as [r |]; [| done].
  assert (is_ascii d) as Hd.
  { apply Forall_cons in Ha as [_ Ha]. by apply Forall_cons in Ha as [? _]. }
  destruct (upper_char_digit d) as (Hdig & Hsame & Hasc).
  rewrite (isdigit_ascii _ (Hasc Hd)), Hdig.
  destruct ((48 <=? d)%nat && (d <=? 57)%nat) eqn:E; [| done].
  apply andb_true_iff in E as [?%Nat.leb_le ?%Nat.leb_le].
  cbn [negb]. rewrite Hsame by lia. by rewrite int_of_digit by lia.
Qed.

(** What a line that is passed on looks like after [upper], whatever its
    characters. *)
Lemma read_shot_ok {U : Unicode} (line : str) (row col : Z) :
  read_shot line = Ok (row, col) <->
  exists y x n,
    upper line = [y; x] /\ (65 <= y <= 90)%nat /\ row = Z.of_nat y - 65
    /\ isdigit x = true /\ int_of_char x = Some n /\ col = n - 1.
Proof.
  unfold read_shot. split.
  - destruct (upper line) as [| y [| x [| ? ?]]]; try done.
    rewrite str_index_uppercase.
    destruct ((65 <=? y)%nat && (y <=? 90)%nat) eqn:E; [| done].
    apply andb_true_iff in E as [?%Nat.leb_le ?%Nat.leb_le].
    destruct (isdigit x) eqn:Ed; [| done]. cbn [negb].
    destruct (int_of_char x) as [n |] eqn:En; [| done].
    intros [= <- <-]. exists y, x, n. repeat split; try done; lia.
  - intros (y & x & n & -> & Hy & -> & -> & -> & ->).
    rewrite str_index_uppercase.
    replace ((65 <=? y)%nat && (y <=? 90)%nat) with true.
    + cbn [negb]. do 2 f_equal. lia.
    + symmetry. apply andb_true_iff. split; apply Nat.leb_le; lia.
Qed.

Lemma read_shot_raise {U : Unicode} line e :
  read_shot line = Raise e -> e = ValueError.
Proof.
  unfold read_shot.
  destruct (upper line) as [| y [| x [| ? ?]]]; try congruence.
  destruct (str_index _ y); [| congruence].
  destruct (isdigit x); cbn [negb]; [| congruence].
  destruct (int_of_char x); congruence.
Qed.

Lemma well_formed_ascii size line :
  well_formed_input size line -> Forall is_ascii line.
Proof.
  intros (l & d & r & -> & Hl & _ & Hd & _).
  assert (is_ascii l) as Hasc.
  { unfold is_ascii, letter_pos in *.
    destruct ((65 <=? l)%nat && (l <=? 90)%nat) eqn:E1.
    - apply andb_true_iff in E1 as [?%Nat.leb_le ?%Nat.leb_le]. lia.
    - destruct ((97 <=? l)%nat && (l <=? 122)%nat) eqn:E2; [| done].
      apply andb_true_iff in E2 as [?%Nat.leb_le ?%Nat.leb_le]. lia. }
  constructor; [done |]. constructor; [unfold is_ascii; lia | constructor].
Qed.

Lemma digit_test (d : nat) :
  (48 <=? d)%nat && (d <=? 57)%nat = true <-> (48 <= d <= 57)%nat.
Proof. by rewrite andb_true_iff, !Nat.leb_le. Qed.

(** The well-formed lines are passed on, to a position of the board. *)
Lemma well_formed_read {U : Unicode} size line :
  well_formed_input size line ->
  exists row col, read_shot line = Ok (row, col)
    /\ 0 <= row < size /\ 0 <= col < size.
Proof.
  intros Hwf. rewrite read_shot_ascii by (by eapply well_formed_ascii).
  destruct Hwf as (l & d & r & -> & Hl & Hr & Hd & Hc). rewrite Hl.
  replace ((48 <=? d)%nat && (d <=? 57)%nat) with true
    by (symmetry; apply digit_test; lia).
  eexists _, _. split; [done |]. lia.
Qed.

(** Among ASCII lines no other is passed on to a position of the
    board. *)
Lemma ascii_read_well_formed {U : Unicode} size line row col :
  Forall is_ascii line -> read_shot line = Ok (row, col) ->
  0 <= row < size -> 0 <= col < size -> well_formed_input size line.
Proof.
  intros Ha. rewrite (read_shot_ascii line Ha).
  destruct line as [| l [| d [| ? ?]]]; try done.
  destruct (letter_pos l) as [r |] eqn:Hl; [| done].
  destruct ((48 <=? d)%nat && (d <=? 57)%nat) eqn:Hd; [| done].
  apply digit_test in Hd. intros [= <- <-] Hrow Hcol.
  exists l, d, r. repeat split; try done; lia.
Qed.

(** A well-formed line is never refused as malformed or out of range;
    an ASCII line that is not well formed always is. *)
Lemma Human_try_refused {U : Unicode} b line :
  (fst (Human_try b line) = Raise ValueError
   \/ fst (Human_try b line) = Raise IndexBoardError ->
   ~ well_formed_input (_size b) line)
  /\ (Forall is_ascii line -> ~ well_formed_input (_size b) line ->
      fst (Human_try b line) = Raise ValueError
      \/ fst (Human_try b line) = Raise IndexBoardError).
Proof.
  unfold Human_try. split.
  - intros H (row & col & E & Hrow & Hcol)%well_formed_read.
    rewrite E in H.
    destruct H as [H | H]; apply hit_raise_kinds in H;
      destruct H as [[_ Hn] | [[? | ?] _]]; try done; by apply Hn.
  - intros Ha Hno.
    destruct (read_shot line) as [[row col] | e] eqn:E.
    + right. rewrite hit_out_of_bounds; [done |].
      intros [? ?]. apply Hno. by eapply ascii_read_well_formed.
    + apply read_shot_raise in E as ->. by left.
Qed.

Lemma Human_try_raise_keeps {U : Unicode} b line e :
  fst (Human_try b line) = Raise e -> snd (Human_try b line) = b.
Proof.
  unfold Human_try. destruct (read_shot line) as [[row col] | e']; [| done].
  intros H.
  destruct (hit_cases b row col)
    as [[e' E] | [E | (k & i & s & c & _ & _ & _ & _ & E)]];
    rewrite E in *; done.
Qed.

(** A list of ASCII lines, by computation. *)
Ltac ascii_lines := apply (proj1 (bool_decide_eq_true _)); by vm_compute.

(** On ASCII lines the tables of the interpreter make no difference. *)
Lemma read_shot_tables (U1 U2 : Unicode) (line : str) :
  Forall is_ascii line -> @read_shot U1 line = @read_shot U2 line.
Proof.
  intros Ha.
  by rewrite (@read_shot_ascii U1 line Ha), (@read_shot_ascii U2 line Ha).
Qed.

Lemma Human_try_tables (U1 U2 : Unicode) (b : Board) (line : str) :
  Forall is_ascii line -> @Human_try U1 b line = @Human_try U2 b line.
Proof. intros Ha. unfold Human_try. by rewrite (read_shot_tables U1 U2). Qed.

Lemma Human_shoot_tables (U1 U2 : Unicode) (lines : list str) : forall b,
  Forall (Forall is_ascii) lines ->
  @Human_shoot U1 b lines = @Human_shoot U2 b lines.
Proof.
  induction lines as [| line lines IH]; intros b Ha; [done |].
  apply Forall_cons in Ha as [Hl Ha]. cbn [Human_shoot].
  rewrite (Human_try_tables U1 U2 b line Hl).
  destruct (Human_try b line) as [[[flag rep] | e] b1]; [done |].
  by rewrite (IH b1 Ha).
Qed.

Lemma play_turn_tables (U1 U2 : Unicode) g player w :
  Forall (Forall is_ascii) (stdin w) ->
  @play_turn U1 g player w = @play_turn U2 g player w.
Proof.
  intros Ha. unfold play_turn, _player_turn.
  destruct player; [| done]. by rewrite (Human_shoot_tables U1 U2).
Qed.

(** C10, as the code has it.  A line is passed on to [hit] exactly when
    [upper] turns it into two characters, a capital letter A-Z (the row,
    its alphabet position) and a character that [isdigit] and [int]
    accept (the column, its value minus one).  The well-formed lines, a
    letter of either case and a digit 1-9 inside the board, are shot at
    that position and never refused as malformed or out of range; among
    ASCII lines every other one, such as ["A10"], is refused with
    [ValueError] or [IndexBoardError].  A refused line and a shot at a
    struck cell leave the board as it was and the next line is read. *)
Theorem human_shoot_input_format {U : Unicode} (b : Board) (line : str)
    (rest : list str) :
  (forall row col,
     read_shot line = Ok (row, col) <->
     exists y x n,
       upper line = [y; x] /\ (65 <= y <= 90)%nat /\ row = Z.of_nat y - 65
       /\ isdigit x = true /\ int_of_char x = Some n /\ col = n - 1)
  /\ (well_formed_input (_size b) line <->
      exists l d r,
        line = [l; d]
        /\ letter_pos l = Some r
        /\ (49 <= d <= 57)%nat
        /\ Human_try b line = hit b (Z.of_nat r) (Z.of_nat d - 48 - 1)
        /\ 0 <= Z.of_nat r < _size b
        /\ 0 <= Z.of_nat d - 48 - 1 < _size b)
  /\ (fst (Human_try b line) = Raise ValueError
      \/ fst (Human_try b line) = Raise IndexBoardError ->
      ~ well_formed_input (_size b) line)
  /\ (Forall is_ascii line -> ~ well_formed_input (_size b) line ->
      fst (Human_try b line) = Raise ValueError
      \/ fst (Human_try b line) = Raise IndexBoardError)
  /\ (forall e, fst (Human_try b line) = Raise e ->
        e = ValueError \/ e = IndexBoardError \/ e = ShootError ->
        Human_shoot b (line :: rest) = after_retry (Human_shoot b rest))
  /\ (forall flag report, fst (Human_try b line) = Ok (flag, report) ->
        Human_shoot b (line :: rest)
        = (Ok (Some flag), snd (Human_try b line), rest))
  /\ read_shot (text "A10") = Raise ValueError.
Proof.
  split; [| split; [| split; [| split; [| split; [| split]]]]].
  - intros row col. apply read_shot_ok.
  - split.
    + intros Hwf. pose proof (well_formed_ascii _ _ Hwf) as Ha.
      destruct Hwf as (l & d & r & -> & Hl & Hr & Hd & Hc).
      exists l, d, r. split; [done |]. split; [done |]. split; [done |].
      split; [| lia].
      unfold Human_try. rewrite (read_shot_ascii _ Ha), Hl.
      replace ((48 <=? d)%nat && (d <=? 57)%nat) with true
        by (symmetry; apply digit_test; lia).
      done.
    + intros (l & d & r & -> & Hl & Hd & _ & Hr & Hc).
      exists l, d, r. repeat split; try done; lia.
  - apply Human_try_refused.
  - apply Human_try_refused.
  - intros e He Hkind. cbn [Human_shoot].
    pose proof (Human_try_raise_keeps b line e He) as Hb.
    destruct (Human_try b line) as [r b']. cbn in He, Hb. subst r b'.
    by destruct Hkind as [-> | [-> | ->]].
  - intros flag report Ho. cbn [Human_shoot].
    destruct (Human_try b line) as [r b']. cbn in Ho. by subst r.
  - rewrite read_shot_ascii by ascii_lines. by vm_compute.
Qed.

Lemma human_shoot_input_format_witness :
  fst (Human_try (U := sample_unicode) example_board (text "K1"))
  = Raise ValueError
  \/ fst (Human_try (U := sample_unicode) example_board (text "K1"))
     = Raise IndexBoardError.
Proof.
  apply (proj1 (proj2 (proj2 (proj2
           (human_shoot_input_format (U := sample_unicode) example_board
              (text "K1") [])))));
    [ascii_lines |].
  intros (l & d & r & [= <- <-] & [= <-] & Hr & _). by vm_compute in Hr.
Defined.

(** Against the wording of C10 in the specification: its format admits
    the three-character line ["A10"], which [shoot] refuses, whatever the
    tables of the interpreter, before it goes on to the next line. *)
Lemma human_shoot_refuses_column_10 :
  spec_accepts (text "A10") = true
  /\ forall U : Unicode,
       read_shot (text "A10") = Raise ValueError
       /\ Human_try example_board (text "A10")
          = (Raise ValueError, example_board)
       /\ Human_shoot example_board [text "A10"; text "A1"]
          = (Ok None, example_board_shot, []).
Proof.
  split; [by vm_compute |]. intros U.
  rewrite (read_shot_tables U sample_unicode) by ascii_lines.
  rewrite (Human_try_tables U sample_unicode) by ascii_lines.
  rewrite (Human_shoot_tables U sample_unicode) by ascii_lines.
  by vm_compute.
Qed.

(** Outside ASCII more lines are passed on than the well-formed ones: in
    a table where [upper] turns the dotless i into [I], as Python's does,
    the line of the dotless i and the digit 1 is a shot at row I. *)
Lemma dotless_i_is_a_row :
  ~ well_formed_input 10 [305%nat; 49%nat]
  /\ Human_try (U := sample_unicode) example_board [305%nat; 49%nat]
     = hit example_board 8 0
  /\ Human_shoot (U := sample_unicode) example_board
       [[305%nat; 49%nat]; text "A1"]
     = (Ok (Some false), example_board, [text "A1"]).
Proof.
  split; [| by vm_compute].
  intros (l & d & r & [= <- <-] & Hl & _). by vm_compute in Hl.
Qed.

(** ** Turns *)

Lemma move_ships_from_returns ks : forall b rnd o b' rnd',
  move_ships_from ks b rnd = Some (o, b', rnd') -> o = Ok tt.
Proof.
  induction ks as [| k ks IH]; intros b rnd o b' rnd'; cbn.
  - by intros [= <- _ _].
  - destruct rnd as [| r rnd]; [done |].
    pose proof (move_ship_at_returns b k (choice_direction r)) as Ho.
    destruct (move_ship_at b k (choice_direction r)) as [o1 b1]; cbn in *.
    subst o1. apply IH.
Qed.

Lemma move_ships_from_draws ks : forall b rnd,
  (length ks <= length rnd)%nat ->
  exists b', move_ships_from ks b rnd = Some (Ok tt, b', drop (length ks) rnd).
Proof.
  induction ks as [| k ks IH]; intros b rnd Hlen; cbn in *.
  - eauto.
  - destruct rnd as [| r rnd]; cbn in Hlen; [lia |].
    pose proof (move_ship_at_returns b k (choice_direction r)) as Ho.
    destruct (move_ship_at b k (choice_direction r)) as [o1 b1]; cbn in *.
    subst o1. apply IH. lia.
Qed.

Lemma _move_ships_spec g rnd o g' rnd' :
  _move_ships g rnd = Some (o, g', rnd') ->
  o = Ok tt /\ _turn g' = _turn g
  /\ exists rnd1,
       move_ships (board (_ai g)) rnd = Some (Ok tt, board (_ai g'), rnd1)
       /\ move_ships (board (_human g)) rnd1
          = Some (Ok tt, board (_human g'), rnd').
Proof.
  unfold _move_ships.
  destruct (move_ships (board (_ai g)) rnd) as [[[o1 b1] rnd1] |] eqn:E1;
    [| done].
  apply move_ships_from_returns in E1 as ?. subst o1.
  destruct (move_ships (board (_human g)) rnd1) as [[[o2 b2] rnd2] |] eqn:E2;
    [| done].
  apply move_ships_from_returns in E2 as ?. subst o2.
  intros [= <- <- <-]. split; [done |]. split; [done |]. by exists rnd1.
Qed.

Lemma _move_ships_total g rnd :
  (length (_ships (board (_ai g))) + length (_ships (board (_human g)))
   <= length rnd)%nat ->
  exists g' rnd', _move_ships g rnd = Some (Ok tt, g', rnd').
Proof.
  intros Hlen. unfold _move_ships, move_ships.
  destruct (move_ships_from_draws (seq 0 (length (_ships (board (_ai g)))))
              (board (_ai g)) rnd) as [b1 ->]; [rewrite length_seq; lia |].
  destruct (move_ships_from_draws (seq 0 (length (_ships (board (_human g)))))
              (board (_human g))
              (drop (length (seq 0 (length (_ships (board (_ai g)))))) rnd))
    as [b2 ->]; [rewrite length_drop, !length_seq; lia |].
  eauto.
Qed.

Lemma _player_turn_keeps_turn {U : Unicode} g player w r g1 w1 :
  _player_turn g player w = Some (r, g1, w1) -> _turn g1 = _turn g.
Proof.
  unfold _player_turn. destruct player.
  - destruct (Human_shoot _ _) as [[r' b'] lines']. by intros [= _ <- _].
  - destruct (AI_shoot _ _) as [[[r' b'] rnd'] |]; [| done].
    by intros [= _ <- _].
Qed.

(** C9, as the code has it: one round of the game loop.  When [shoot]
    returns true the same player stays on turn and no ship moves.  When it
    returns a falsy value the turn passes to the other player: from the
    human to the AI with both boards as the shot left them, and from the
    AI to the human after [move_ships] on the AI's board and then on the
    human's board.  With one random number per ship the round returns. *)
Theorem turn_passes_on_falsy_shot {U : Unicode} (g : SeaBattle)
    (player : Who) (w : World) (v : option bool) (g1 : SeaBattle)
    (w1 : World) :
  _turn g = Some player ->
  _player_turn g player w = Some (Ok v, g1, w1) ->
  (v = Some true ->
   play_turn g player w = Some (Ok tt, g1, w1) /\ _turn g1 = Some player)
  /\ (v <> Some true -> player = TheHuman ->
      play_turn g player w
      = Some (Ok tt, mkSeaBattle (_human g1) (_ai g1) (Some TheAI), w1))
  /\ (v <> Some true -> player = TheAI ->
      (forall o g2 w2, play_turn g player w = Some (o, g2, w2) ->
         o = Ok tt /\ _turn g2 = Some TheHuman /\ stdin w2 = stdin w1
         /\ exists rnd1,
              move_ships (board (_ai g1)) (entropy w1)
              = Some (Ok tt, board (_ai g2), rnd1)
              /\ move_ships (board (_human g1)) rnd1
                 = Some (Ok tt, board (_human g2), entropy w2))
      /\ ((length (_ships (board (_ai g1)))
           + length (_ships (board (_human g1))) <= length (entropy w1))%nat ->
          exists g2 w2, play_turn g player w = Some (Ok tt, g2, w2))).
Proof.
  intros Hturn Hshot.
  pose proof (_player_turn_keeps_turn _ _ _ _ _ _ Hshot) as Hkeep.
  unfold play_turn. rewrite Hshot.
  split; [| split].
  - intros ->. cbn. split; [done | congruence].
  - intros Hv ->.
    replace (falsy v) with true by (by destruct v as [[] |]).
    unfold _change_turn. rewrite Hkeep, Hturn. by destruct w1.
  - intros Hv ->.
    replace (falsy v) with true by (by destruct v as [[] |]).
    unfold _change_turn. rewrite Hkeep, Hturn. split.
    + intros o g2 w2.
      destruct (_move_ships _ (entropy w1)) as [[[o' g'] rnd'] |] eqn:E;
        [| done].
      intros [= <- <- <-].
      apply _move_ships_spec in E as (-> & Ht & rnd1 & E1 & E2). cbn in *.
      split; [done |]. split; [done |]. split; [done |]. by exists rnd1.
    + intros Hlen.
      destruct (_move_ships_total
                  (mkSeaBattle (_human g1) (_ai g1) (Some TheHuman))
                  (entropy w1) Hlen) as (g2 & rnd2 & ->).
      eauto.
Qed.

Lemma turn_passes_on_falsy_shot_witness :
  exists g2 w2,
    play_turn (U := sample_unicode)
      (mkSeaBattle (mkPlayer example_board) (mkPlayer example_board)
         (Some TheAI))
      TheAI (mkWorld [] (9 :: 9 :: replicate 20 0))
    = Some (Ok tt, g2, w2).
Proof.
  refine (proj2 (proj2 (proj2
            (turn_passes_on_falsy_shot (U := sample_unicode)
               (mkSeaBattle (mkPlayer example_board) (mkPlayer example_board)
                  (Some TheAI))
               TheAI (mkWorld [] (9 :: 9 :: replicate 20 0))
               (Some false)
               (mkSeaBattle (mkPlayer example_board) (mkPlayer example_board)
                  (Some TheAI))
               (mkWorld [] (replicate 20 0)) _ _)) _ _) _).
  - done.
  - by vm_compute.
  - done.
  - done.
  - vm_compute. lia.
Defined.

(** Against the wording of C9 in the specification: the human hits the
    ship at row A, column 1 and stays on turn. *)
Lemma turn_kept_after_hit :
  _turn example_game = Some TheHuman
  /\ forall U : Unicode,
       exists g' w',
         play_turn example_game TheHuman (mkWorld [text "A1"] [])
         = Some (Ok tt, g', w')
         /\ board (_ai g') = example_board_shot
         /\ _turn g' = Some TheHuman.
Proof.
  split; [done |]. intros U.
  rewrite (play_turn_tables U sample_unicode) by ascii_lines.
  eexists _, _. split; [by vm_compute |]. by vm_compute.
Qed.

(** * Further properties of the engine *)

(** ** Ships keep their distance *)

Lemma is_collide_false s t :
  is_collide s t = false <->
  fst (get_finish_coords t) < _x s \/ fst (get_finish_coords s) < _x t
  \/ snd (get_finish_coords t) < _y s \/ snd (get_finish_coords s) < _y t.
Proof.
  rewrite <- not_true_iff_false, is_collide_true. lia.
Qed.

(** X1: on every board the program can hold, two different ships never
    touch, not even at a corner: any position of one and any position of
    the other are at least two apart in a row or in a column. *)
Theorem ships_never_touch (b : Board) (i j : nat) (s t : Ship)
    (px py qx qy : Z) :
  reachable b -> i <> j ->
  _ships b !! i = Some s -> _ships b !! j = Some t ->
  occupies s px py -> occupies t qx qy ->
  2 <= Z.abs (px - qx) \/ 2 <= Z.abs (py - qy).
Proof.
  intros [[_ Hcol] _]%reachable_ok Hij Hi Hj [Hsx Hsy] [Htx Hty].
  pose proof (Hcol i j s t Hij Hi Hj) as Hc.
  apply is_collide_false in Hc. lia.
Qed.

Lemma ships_never_touch_witness :
  2 <= Z.abs (3 - 5) \/ 2 <= Z.abs (0 - 2).
Proof.
  apply (ships_never_touch example_board_moved 0 1
           (mkShip 4 1 0 0 false
              [mkCell false; mkCell true; mkCell true; mkCell true])
           (Ship_init 3 2 5 0) 3 0 5 2).
  - exact example_board_moved_reachable.
  - done.
  - by vm_compute.
  - by vm_compute.
  - vm_compute. repeat split; congruence.
  - vm_compute. repeat split; congruence.
Defined.

(** ** What [move_ships] does to each ship *)

(** The board after the loop body for ship [j]: unchanged, or ship [j]
    moved by the drawn direction, or by the opposite one. *)
Lemma move_ship_at_board b j d :
  snd (move_ship_at b j d) = b
  \/ exists s s' d',
       (d' = d \/ d' = - d)
       /\ _ships b !! j = Some s /\ move s d' = Ok s'
       /\ _check_location_ship
            (mkBoard (_size b) (<[j := s']> (_ships b))) (Some j) s' = false
       /\ snd (move_ship_at b j d)
          = mkBoard (_size b) (<[j := s']> (_ships b)).
Proof.
  destruct (move_ship_at_cases b j d) as [[E _] | (_ & _ & [[E _] | [E _]])];
    rewrite E; cbn [snd]; [| | by left].
  - destruct (guarded_move_cases b j d)
      as [[E' _] | [[E' _] | (s & s' & Hj & Hmv & Hchk & E')]];
      rewrite E'; cbn [snd]; [by left | by left |].
    right. exists s, s', d. auto.
  - destruct (guarded_move_cases b j (- d))
      as [[E' _] | [[E' _] | (s & s' & Hj & Hmv & Hchk & E')]];
      rewrite E'; cbn [snd]; [by left | by left |].
    right. exists s, s', (- d). auto.
Qed.

Lemma move_ship_at_effect b j d k s :
  _ships b !! k = Some s ->
  exists s' d',
    _ships (snd (move_ship_at b j d)) !! k = Some s'
    /\ (d' = 0 \/ d' = d \/ d' = - d)
    /\ shifted_by d' s s'
    /\ (k <> j -> s' = s).
Proof.
  intros Hk.
  destruct (move_ship_at_board b j d)
    as [-> | (t & t' & d' & Hd & Hj & Hmv & _ & ->)].
  - exists s, 0. split; [done |]. split; [auto |].
    split; [apply shifted_by_zero | done].
  - cbn [_ships]. destruct (decide (k = j)) as [-> | Hne].
    + exists t', d'. assert (t = s) as -> by congruence.
      split; [apply list_lookup_insert_eq; by eapply lookup_lt_Some |].
      split; [tauto |]. split; [by apply move_shifts | done].
    + exists s, 0. rewrite list_lookup_insert_ne by done.
      split; [done |]. split; [auto |].
      split; [apply shifted_by_zero | done].
Qed.

Lemma move_ships_from_effect ks : forall b rnd o b' rnd',
  NoDup ks ->
  move_ships_from ks b rnd = Some (o, b', rnd') ->
  length rnd = (length ks + length rnd')%nat
  /\ forall k s, _ships b !! k = Some s ->
       exists s' d,
         _ships b' !! k = Some s'
         /\ (d = -1 \/ d = 0 \/ d = 1) /\ shifted_by d s s'
         /\ (k ∉ ks -> s' = s).
Proof.
  induction ks as [| j ks IH]; intros b rnd o b' rnd' Hnd; cbn.
  - intros [= <- <- <-]. split; [done |]. intros k s Hk.
    exists s, 0. split; [done |]. split; [auto |].
    split; [apply shifted_by_zero | done].
  - apply NoDup_cons in Hnd as [Hj Hnd].
    destruct rnd as [| r rnd]; [done |].
    pose proof (move_ship_at_returns b j (choice_direction r)) as Ho.
    pose proof (move_ship_at_effect b j (choice_direction r)) as Heff.
    destruct (move_ship_at b j (choice_direction r)) as [o1 b1]; cbn in *.
    subst o1. intros H. apply IH in H as [Hlen Hrest]; [| done].
    split; [lia |]. intros k s Hk.
    destruct (Heff k s Hk) as (s1 & d1 & Hk1 & Hd1 & Hs1 & Hne1).
    destruct (Hrest k s1 Hk1) as (s' & d2 & Hk' & Hd2 & Hs2 & Hne2).
    destruct (decide (k = j)) as [-> | Hkj].
    + exists s', d1. rewrite (Hne2 Hj) in *. split; [done |].
      split; [destruct (choice_direction_cases r); lia |].
      split; [done |]. intros Hn. exfalso. apply Hn. left.
    + exists s', d2. rewrite (Hne1 Hkj) in *. split; [done |].
      split; [done |]. split; [done |].
      intros Hn. apply Hne2. intros Hin. apply Hn. by right.
Qed.

Lemma move_ships_from_shape ks : forall b rnd o b' rnd',
  move_ships_from ks b rnd = Some (o, b', rnd') ->
  _size b' = _size b /\ length (_ships b') = length (_ships b).
Proof.
  induction ks as [| j ks IH]; intros b rnd o b' rnd'; cbn.
  - by intros [= _ <- _].
  - destruct rnd as [| r rnd]; [done |].
    pose proof (move_ship_at_returns b j (choice_direction r)) as Ho.
    pose proof (move_ship_at_board b j (choice_direction r)) as Hb.
    destruct (move_ship_at b j (choice_direction r)) as [o1 b1].
    cbn in *. subst o1. intros [Hs Hl]%IH. rewrite Hs, Hl.
    destruct Hb as [-> | (? & ? & ? & _ & _ & _ & _ & ->)]; [done |].
    cbn. by rewrite length_insert.
Qed.

(** X2: a call of [move_ships] that returns consumed exactly one random
    number per ship and did not raise; it keeps the size of the board, the
    number of ships and every ship's length, orientation, movement flag
    and cells, and leaves each ship where it was or one step away along
    its long axis; a ship that cannot move is not changed at all. *)
Theorem move_ships_shifts_each_ship_once (b : Board) (rnd : list Z)
    (o : res unit) (b' : Board) (rnd' : list Z) :
  move_ships b rnd = Some (o, b', rnd') ->
  o = Ok tt
  /\ length rnd = (length (_ships b) + length rnd')%nat
  /\ _size b' = _size b
  /\ length (_ships b') = length (_ships b)
  /\ forall k s, _ships b !! k = Some s ->
       exists s' d,
         _ships b' !! k = Some s'
         /\ (d = -1 \/ d = 0 \/ d = 1) /\ shifted_by d s s'
         /\ (_is_move s = false -> s' = s).
Proof.
  intros H. unfold move_ships in H.
  pose proof (move_ships_from_returns _ _ _ _ _ _ H) as ->.
  pose proof (move_ships_from_effect _ _ _ _ _ _ (NoDup_seq 0 _) H)
    as [Hlen Heff].
  pose proof (move_ships_from_shape _ _ _ _ _ _ H) as [Hsz Hl].
  rewrite length_seq in Hlen.
  split; [done |]. split; [done |]. split; [done |]. split; [done |].
  intros k s Hk. destruct (Heff k s Hk) as (s' & d & Hk' & Hd & Hs & _).
  exists s', d. split; [done |]. split; [done |]. split; [done |].
  intros Hm. pose proof (move_ships_from_keeps _ _ _ _ _ _ k s H Hk Hm).
  congruence.
Qed.

Lemma move_ships_shifts_each_ship_once_witness :
  exists s' d,
    _ships example_board_moved !! 2%nat = Some s'
    /\ (d = -1 \/ d = 0 \/ d = 1)
    /\ shifted_by d (Ship_init 3 1 0 2) s'
    /\ (_is_move (Ship_init 3 1 0 2) = false -> s' = Ship_init 3 1 0 2).
Proof.
  refine (proj2 (proj2 (proj2 (proj2
            (move_ships_shifts_each_ship_once example_board_shot
               [0; 1; 0; 1; 0; 1; 0; 1; 0; 1] (Ok tt) example_board_moved []
               _)))) 2%nat (Ship_init 3 1 0 2) _);
    by vm_compute.
Defined.

(** X3: with at least one random number per ship, [move_ships] returns
    without raising, whatever the board: the errors of the two attempts
    never leave the loop. *)
Theorem move_ships_returns (b : Board) (rnd : list Z) :
  (length (_ships b) <= length rnd)%nat ->
  exists b', move_ships b rnd
             = Some (Ok tt, b', drop (length (_ships b)) rnd).
Proof.
  intros Hlen. unfold move_ships.
  destruct (move_ships_from_draws (seq 0 (length (_ships b))) b rnd)
    as [b' E]; [by rewrite length_seq |].
  rewrite length_seq in E. eauto.
Qed.

Lemma move_ships_returns_witness :
  exists b', move_ships example_board_shot [0; 1; 0; 1; 0; 1; 0; 1; 0; 1; 7]
             = Some (Ok tt, b', [7]).
Proof.
  apply (move_ships_returns example_board_shot
           [0; 1; 0; 1; 0; 1; 0; 1; 0; 1; 7]).
  vm_compute. lia.
Defined.

(** ** Counting the cells still intact *)

Lemma sum_list_insert (l : list nat) (i x y : nat) :
  l !! i = Some x -> (sum_list (<[i := y]> l) + x = sum_list l + y)%nat.
Proof.
  revert i. induction l as [| a l IH]; intros [| i]; simpl; try done.
  - intros [= ->]. lia.
  - intros Hi. specialize (IH i Hi). lia.
Qed.

Lemma sum_list_pointwise {A} (f : A -> nat) (l : list A) : forall l',
  length l' = length l ->
  (forall k a, l !! k = Some a ->
     exists a', l' !! k = Some a' /\ (f a' <= f a)%nat) ->
  (sum_list (f <$> l') <= sum_list (f <$> l))%nat.
Proof.
  induction l as [| a l IH]; intros [| a' l'] Hlen Hall; csimpl in *; try done.
  destruct (Hall 0%nat a eq_refl) as (? & [= <-] & Hle).
  assert (sum_list (f <$> l') <= sum_list (f <$> l))%nat; [| lia].
  apply IH; [lia |]. intros k c Hk. apply (Hall (S k) c Hk).
Qed.

Lemma intact_cells_insert s i c v :
  _cells s !! i = Some c ->
  (intact_cells (mkShip (_length s) (_tp s) (_x s) (_y s) v
                   (<[i := mkCell false]> (_cells s)))
   + (if _value c then 1 else 0)
   = intact_cells s)%nat.
Proof.
  intros Hi. unfold intact_cells. cbn [_cells].
  rewrite list_fmap_insert. cbn.
  pose proof (sum_list_insert
                ((fun c => if Cell_bool c then 1%nat else 0%nat) <$> _cells s)
                i (if _value c then 1%nat else 0%nat) 0%nat) as H.
  rewrite list_lookup_fmap, Hi in H. specialize (H eq_refl). lia.
Qed.

Lemma intact_cells_Cell_hit s i c :
  _cells s !! i = Some c ->
  (intact_cells (Cell_hit s i) + (if _value c then 1 else 0)
   = intact_cells s)%nat.
Proof.
  intros Hi. unfold Cell_hit, hurt. cbn [_is_move _length _tp _x _y _cells].
  destruct (_is_move s); by apply intact_cells_insert.
Qed.

Lemma Ship_bool_intact_cells s :
  Ship_bool s = true <-> (0 < intact_cells s)%nat.
Proof.
  unfold Ship_bool, intact_cells.
  induction (_cells s) as [| c l IH]; csimpl; [split; [done | lia] |].
  destruct (Cell_bool c); [split; [lia | done] | exact IH].
Qed.

Lemma afloat_replace b k s s' :
  _ships b !! k = Some s ->
  (afloat (mkBoard (_size b) (<[k := s']> (_ships b))) + intact_cells s
   = afloat b + intact_cells s')%nat.
Proof.
  intros Hk. unfold afloat. cbn [_ships]. rewrite list_fmap_insert.
  apply sum_list_insert. by rewrite list_lookup_fmap, Hk.
Qed.

(** X4: a shot that [hit] reports as a hit clears exactly one intact cell
    of one ship, which stays where it is: the fleet has one intact cell
    less, the report is "sunk" exactly when that ship has none left and
    "wounded" otherwise.  A shot reported as no hit is a "miss" and
    changes nothing. *)
Theorem hit_strikes_exactly_one_cell (b : Board) (y x : Z) (rep : Report) :
  (fst (hit b y x) = Ok (true, rep) ->
   afloat b = S (afloat (snd (hit b y x)))
   /\ exists k s s',
        _ships b !! k = Some s
        /\ snd (hit b y x) = mkBoard (_size b) (<[k := s']> (_ships b))
        /\ same_place s s'
        /\ intact_cells s = S (intact_cells s')
        /\ (rep = Sunk <-> intact_cells s' = 0%nat)
        /\ (rep = Wounded <-> (0 < intact_cells s')%nat))
  /\ (fst (hit b y x) = Ok (false, rep) ->
      rep = Miss /\ snd (hit b y x) = b).
Proof.
  destruct (hit_cases b y x)
    as [[e E] | [E | (k & i & s & c & _ & Hk & Hi & Hv & E)]];
    rewrite E; cbn [fst snd]; split; try done.
  - by intros [= <-].
  - intros [= <-].
    pose proof (intact_cells_Cell_hit s i c Hi) as Hn. rewrite Hv in Hn.
    pose proof (afloat_replace b k s (Cell_hit s i) Hk) as Ha.
    split; [lia |]. exists k, s, (Cell_hit s i).
    split; [done |]. split; [done |].
    split; [apply Cell_hit_same_place |]. split; [lia |].
    pose proof (Ship_bool_intact_cells (Cell_hit s i)) as Hb.
    destruct (Ship_bool (Cell_hit s i)).
    + assert (0 < intact_cells (Cell_hit s i))%nat by (by apply Hb).
      split; split; try done; lia.
    + assert (intact_cells (Cell_hit s i) = 0%nat) as H0.
      { destruct (intact_cells (Cell_hit s i)); [done |].
        assert (false = true); [apply Hb; lia | done]. }
      split; split; try done; lia.
Qed.

Lemma hit_strikes_exactly_one_cell_witness :
  afloat example_board = S (afloat (snd (hit example_board 0 0))).
Proof.
  apply (proj1 (hit_strikes_exactly_one_cell example_board 0 0 Wounded)).
  by vm_compute.
Defined.

(** ** Damage only grows *)

Lemma worn_refl s : worn s s.
Proof. unfold worn. repeat split; try done. eauto. Qed.

Lemma worn_trans s1 s2 s3 : worn s1 s2 -> worn s2 s3 -> worn s1 s3.
Proof.
  intros (Hl1 & Ht1 & Hc1 & Hm1 & Hn1 & Hs1) (Hl2 & Ht2 & Hc2 & Hm2 & Hn2 & Hs2).
  unfold worn. split; [congruence |]. split; [congruence |].
  split; [congruence |]. split; [auto |]. split; [lia |].
  intros i c Hi Hv. destruct (Hs1 i c Hi Hv) as (c' & Hi' & Hv'). eauto.
Qed.

Lemma shifted_by_worn d s s' : shifted_by d s s' -> worn s s'.
Proof.
  intros (Hl & Ht & Hm & Hc & _). unfold worn, intact_cells.
  rewrite Hl, Ht, Hm, Hc. repeat split; try done. eauto.
Qed.

Lemma Cell_hit_worn s i c : _cells s !! i = Some c -> worn s (Cell_hit s i).
Proof.
  intros Hi. destruct (Cell_hit_same_place s i) as (Hl & Ht & _).
  pose proof (intact_cells_Cell_hit s i c Hi) as Hn.
  unfold worn. rewrite Hl, Ht, Cell_hit_cells, length_insert, Cell_hit_is_move.
  repeat split; try done; [lia |].
  intros j c' Hj Hv. destruct (decide (j = i)) as [-> | Hne].
  - exists (mkCell false).
    split; [apply list_lookup_insert_eq; by eapply lookup_lt_Some | done].
  - exists c'. by rewrite list_lookup_insert_ne.
Qed.

Lemma step_worn b b' :
  step b b' ->
  _size b' = _size b /\ length (_ships b') = length (_ships b)
  /\ forall k s, _ships b !! k = Some s ->
       exists s', _ships b' !! k = Some s' /\ worn s s'.
Proof.
  intros [b0 rnd b1 rnd' Hmv | b0 y x].
  - unfold move_ships in Hmv.
    pose proof (move_ships_from_shape _ _ _ _ _ _ Hmv) as [Hs Hl].
    pose proof (move_ships_from_effect _ _ _ _ _ _ (NoDup_seq 0 _) Hmv)
      as [_ Heff].
    split; [done |]. split; [done |]. intros k s Hk.
    destruct (Heff k s Hk) as (s' & d & Hk' & _ & Hsh & _).
    exists s'. split; [done | by eapply shifted_by_worn].
  - destruct (hit_cases b0 y x)
      as [[e E] | [E | (k & i & s & c & _ & Hk & Hi & _ & E)]];
      rewrite E; cbn [snd]; try (repeat split; try done;
        intros k s Hk; exists s; split; [done | apply worn_refl]).
    cbn [_size _ships]. rewrite length_insert. split; [done |]. split; [done |].
    intros k' s' Hk'. destruct (decide (k' = k)) as [-> | Hne].
    + assert (s' = s) as -> by congruence. exists (Cell_hit s i).
      split; [apply list_lookup_insert_eq; by eapply lookup_lt_Some |].
      by eapply Cell_hit_worn.
    + exists s'. rewrite list_lookup_insert_ne by done.
      split; [done | apply worn_refl].
Qed.

Lemma steps_worn b b' :
  rtc step b b' ->
  _size b' = _size b /\ length (_ships b') = length (_ships b)
  /\ forall k s, _ships b !! k = Some s ->
       exists s', _ships b' !! k = Some s' /\ worn s s'.
Proof.
  induction 1 as [b | b b1 b2 Hst _ (Hs2 & Hl2 & H2)].
  - split; [done |]. split; [done |]. intros k s Hk. exists s.
    split; [done | apply worn_refl].
  - apply step_worn in Hst as (Hs1 & Hl1 & H1).
    split; [congruence |]. split; [congruence |]. intros k s Hk.
    destruct (H1 k s Hk) as (s1 & Hk1 & Hw1).
    destruct (H2 k s1 Hk1) as (s2 & Hk2 & Hw2).
    exists s2. split; [done | by eapply worn_trans].
Qed.

Lemma Board_bool_afloat b : Board_bool b = true <-> (0 < afloat b)%nat.
Proof.
  unfold Board_bool, afloat.
  induction (_ships b) as [| s l IH]; csimpl; [split; [done | lia] |].
  rewrite orb_true_iff, IH, Ship_bool_intact_cells. lia.
Qed.

(** X5: whatever calls of [move_ships] and [hit] follow, the board keeps
    its size and its ships (none is removed or added, none changes length
    or orientation), a struck cell stays struck, a cleared movement flag
    stays cleared, the number of intact cells never grows, and a board
    whose fleet is destroyed stays destroyed. *)
Theorem damage_is_permanent (b b' : Board) :
  rtc step b b' ->
  _size b' = _size b
  /\ length (_ships b') = length (_ships b)
  /\ (forall k s, _ships b !! k = Some s ->
        exists s', _ships b' !! k = Some s' /\ worn s s')
  /\ (afloat b' <= afloat b)%nat
  /\ (Board_bool b = false -> Board_bool b' = false).
Proof.
  intros (Hs & Hl & Hw)%steps_worn.
  assert (afloat b' <= afloat b)%nat as Ha.
  { unfold afloat. apply sum_list_pointwise; [done |].
    intros k s Hk. destruct (Hw k s Hk) as (s' & Hk' & Hworn).
    exists s'. split; [done |]. by destruct Hworn as (_ & _ & _ & _ & ? & _). }
  split; [done |]. split; [done |]. split; [done |]. split; [done |].
  intros Hdead. apply not_true_iff_false. intros Halive.
  apply Board_bool_afloat in Halive.
  assert (Board_bool b = true); [apply Board_bool_afloat; lia | congruence].
Qed.

Lemma damage_is_permanent_witness :
  _size example_board_moved = _size example_board
  /\ length (_ships example_board_moved) = length (_ships example_board)
  /\ (forall k s, _ships example_board !! k = Some s ->
        exists s', _ships example_board_moved !! k = Some s' /\ worn s s')
  /\ (afloat example_board_moved <= afloat example_board)%nat
  /\ (Board_bool example_board = false ->
      Board_bool example_board_moved = false).
Proof.
  apply (damage_is_permanent example_board example_board_moved).
  apply rtc_l with example_board_shot; [apply step_hit |].
  apply rtc_once.
  apply step_move_ships with (rnd := [0; 1; 0; 1; 0; 1; 0; 1; 0; 1]) (rnd' := []).
  by vm_compute.
Defined.

(** ** A new board *)

Lemma new_ships_cells lengths : forall tps,
  length tps = length lengths ->
  Forall fresh (zip_with (fun l r => Ship_init l (randint 1 2 r) 0 0) lengths tps)
  /\ map intact_cells
       (zip_with (fun l r => Ship_init l (randint 1 2 r) 0 0) lengths tps)
     = map (fun l => Z.to_nat l) lengths.
Proof.
  induction lengths as [| l lengths IH]; intros [| r tps] Hlen; try done.
  cbn in Hlen. destruct (IH tps) as [Hf Hm]; [lia |].
  cbn [zip_with map]. rewrite Hm. split.
  - constructor; [| done]. split; [done |]. cbn.
    apply Forall_forall. intros c Hc.
    apply list_elem_of_In, in_map_iff in Hc as (? & <- & _). done.
  - f_equal. unfold intact_cells, Ship_init, range. cbn [_cells].
    rewrite <- (length_seqZ 0 l), Z.sub_0_r.
    induction (seqZ 0 l) as [| z zs IHz]; [done |]. csimpl. by rewrite IHz.
Qed.

Lemma placed_from_intact ships placed :
  Forall2 placed_from ships placed ->
  map intact_cells placed = map intact_cells ships
  /\ (Forall fresh ships -> Forall fresh placed).
Proof.
  induction 1 as [| s p ships placed (x & y & ->) _ [IH1 IH2]]; [done |].
  cbn. rewrite IH1. split; [done |].
  intros [Hs Hss]%Forall_cons. constructor; [done | auto].
Qed.

(** X6: the board a constructor call returns has every ship free to move
    and all its 20 cells intact; it is alive. *)
Theorem new_board_is_intact (size : Z) (rnd : list Z) (b : Board)
    (rnd' : list Z) :
  Board_init size rnd = Some (Ok b, rnd') ->
  Forall fresh (_ships b) /\ afloat b = 20%nat /\ Board_bool b = true.
Proof.
  intros (_ & _ & tps & rest & -> & Hlen & HF)%Board_init_spec.
  destruct (new_ships_cells fleet_lengths tps) as [Hfresh Hcells]; [done |].
  apply placed_from_intact in HF as [Hi Hf].
  assert (afloat b = 20%nat) as Ha.
  { unfold afloat. change (intact_cells <$> _ships b)
      with (map intact_cells (_ships b)). by rewrite Hi, Hcells. }
  split; [auto |]. split; [done |]. apply Board_bool_afloat. lia.
Qed.

Lemma new_board_is_intact_witness :
  Forall fresh (_ships example_board) /\ afloat example_board = 20%nat
  /\ Board_bool example_board = true.
Proof.
  apply (new_board_is_intact 10 example_draws example_board []).
  by vm_compute.
Defined.

(** ** How small a board can be *)

Lemma NoDup_list_prod {A B} (l : list A) (k : list B) :
  NoDup l -> NoDup k -> NoDup (list_prod l k).
Proof.
  intros Hl Hk. induction Hl as [| a l Ha Hl IH]; cbn; [constructor |].
  apply NoDup_app. split; [| split; [| done]].
  - change (map (fun y => (a, y)) k) with ((fun y => (a, y)) <$> k).
    apply NoDup_fmap_2; [| done]. by intros y1 y2 [= ->].
  - intros [a' b'] Hin Hin'.
    apply list_elem_of_In, in_map_iff in Hin as (y & [= <- <-] & _).
    apply list_elem_of_In, in_prod_iff in Hin' as [Hin' _].
    by apply list_elem_of_In in Hin'.
Qed.

Lemma elem_of_list_prod {A B} (l : list A) (k : list B) (a : A) (c : B) :
  (a, c) ∈ list_prod l k <-> a ∈ l /\ c ∈ k.
Proof. by rewrite !list_elem_of_In, in_prod_iff. Qed.

Lemma elem_of_box_points s px py :
  (px, py) ∈ box_points s <-> in_closed_box s px py.
Proof.
  unfold box_points, in_closed_box.
  rewrite elem_of_list_prod, !elem_of_seqZ. lia.
Qed.

Lemma elem_of_grid_points size px py :
  (px, py) ∈ grid_points size <-> 0 <= px < size /\ 0 <= py < size.
Proof.
  unfold grid_points. rewrite elem_of_list_prod, !elem_of_seqZ. lia.
Qed.

Lemma length_box_points s :
  0 <= _length s ->
  length (box_points s) = (2 * (Z.to_nat (_length s) + 1))%nat.
Proof.
  intros Hl. unfold box_points. rewrite length_prod, !length_seqZ.
  destruct (finish_coords_cases s) as [-> | ->]; cbn [fst snd];
    rewrite !Z.add_simpl_l; change (Z.to_nat (1 + 1)) with 2%nat; lia.
Qed.

Lemma fleet_points_NoDup (ships : list Ship) :
  (forall i j s t, i <> j -> ships !! i = Some s -> ships !! j = Some t ->
     is_collide s t = false) ->
  NoDup (mjoin (box_points <$> ships)).
Proof.
  induction ships as [| s ships IH]; intros Hcol; csimpl; [constructor |].
  apply NoDup_app. split; [| split].
  - apply NoDup_list_prod; apply NoDup_seqZ.
  - intros [px py] Hs Hin.
    apply list_elem_of_join in Hin as (pts & Hin & Hpts).
    apply list_elem_of_fmap in Hpts as (t & -> & Ht).
    apply list_elem_of_lookup in Ht as [j Hj].
    apply elem_of_box_points in Hs as [? ?], Hin as [? ?].
    assert (is_collide s t = true) as Hyes by (apply is_collide_true; lia).
    rewrite (Hcol 0%nat (S j) s t) in Hyes; done.
  - apply IH. intros i j t u Hij Hi Hj.
    by apply (Hcol (S i) (S j)); [lia | |].
Qed.

Lemma fleet_points_count (ships : list Ship) :
  Forall (fun s => 0 <= _length s) ships ->
  length (mjoin (box_points <$> ships))
  = sum_list ((fun l => 2 * (Z.to_nat l + 1))%nat <$> map _length ships).
Proof.
  induction 1 as [| s ships Hs _ IH]; csimpl; [done |].
  by rewrite length_app, length_box_points, IH.
Qed.

Lemma placement_no_room b ship rnd :
  _size b <= 0 -> _placement_ship b ship rnd = Some (Raise ValueError, b, rnd).
Proof.
  intros Hsize. destruct rnd as [| rx rnd]; cbn [_placement_ship];
    by replace (_size b - 1 <? 0) with true by (symmetry; apply Z.ltb_lt; lia).
Qed.

(** X7: [Board(size)] raises [ValueError] for a size of 0 or less (after
    the ten orientations are drawn); it can return a board only for
    sizes of at least 8, because the closed boxes of the ten ships are
    disjoint and hold 60 grid points; and for size 8 there are random
    numbers with which it does return. *)
Theorem board_size_limits :
  (forall size rnd,
     size <= 0 -> (10 <= length rnd)%nat ->
     Board_init size rnd = Some (Raise ValueError, drop 10 rnd))
  /\ (forall size rnd b rnd',
        Board_init size rnd = Some (Ok b, rnd') -> 8 <= size)
  /\ exists b, Board_init 8 tight_draws = Some (Ok b, []).
Proof.
  split; [| split].
  - intros size rnd Hsize Hlen.
    do 10 (destruct rnd as [| ? rnd]; [cbn in Hlen; lia |]).
    unfold Board_init, create. rewrite fleet_lengths_eq.
    cbn [new_ships place_all drop]. by rewrite placement_no_room.
  - intros size rnd b rnd' Hinit.
    pose proof Hinit as (Hb & Hsize & tps & rest & _ & Hlen & HF)%Board_init_spec.
    apply placed_from_fields in HF as (Hl & _).
    destruct (new_ships_fields fleet_lengths tps Hlen) as [El _].
    rewrite El, fleet_lengths_eq in Hl.
    destruct Hb as [[Hout Hcol] Hwf].
    pose proof (fleet_points_NoDup (_ships b) Hcol) as Hnd.
    assert (length (mjoin (box_points <$> _ships b)) = 60%nat) as Hcount.
    { rewrite fleet_points_count, Hl; [done |].
      eapply Forall_impl; [exact Hwf |]. intros s (? & _). lia. }
    assert (length (mjoin (box_points <$> _ships b))
            <= length (grid_points size))%nat as Hle.
    { apply submseteq_length, NoDup_submseteq; [done |].
      intros [px py] Hin.
      apply list_elem_of_join in Hin as (pts & Hin & Hpts).
      apply list_elem_of_fmap in Hpts as (s & -> & Hs).
      apply list_elem_of_lookup in Hs as [k Hk].
      apply elem_of_box_points in Hin as [? ?].
      apply Hout, is_out_board_false in Hk. rewrite Hsize in Hk.
      apply elem_of_grid_points. lia. }
    rewrite Hcount in Hle. unfold grid_points in Hle.
    rewrite length_prod, length_seqZ in Hle.
    destruct (Z_lt_le_dec size 8) as [Hlt | ?]; [| done].
    assert (Z.to_nat size <= 7)%nat by lia. nia.
  - eexists. by vm_compute.
Qed.

Lemma board_size_limits_witness : 8 <= 10.
Proof.
  apply (proj1 (proj2 board_size_limits) 10 example_draws example_board []).
  by vm_compute.
Defined.

(** ** A second fleet *)

Lemma wide_board_ok : board_ok wide_board.
Proof.
  apply (Board_init_spec 20 wide_draws wide_board []). by vm_compute.
Defined.

(** X8: [create] does not replace a fleet: called on a board that passes
    the checks, it leaves the ships already there untouched and appends
    ten new ones, of lengths 4, 3, 3, 2, 2, 2, 1, 1, 1, 1, all intact and
    free to move, and the enlarged fleet passes the checks again. *)
Theorem create_appends_a_fleet (b : Board) (rnd : list Z) (b' : Board)
    (rnd' : list Z) :
  board_ok b ->
  create b rnd = Some (Ok tt, b', rnd') ->
  board_ok b' /\ _size b' = _size b
  /\ exists placed,
       _ships b' = _ships b ++ placed
       /\ map _length placed = [4; 3; 3; 2; 2; 2; 1; 1; 1; 1]
       /\ Forall fresh placed.
Proof.
  intros Hb. unfold create.
  destruct (new_ships fleet_lengths rnd) as [[ships rnd1] |] eqn:En; [| done].
  pose proof (new_ships_ok _ _ _ _ fleet_lengths_bounds En) as Hok.
  apply new_ships_spec in En as (tps & -> & Hlen & ->).
  intros (Hb' & Hsz & placed & Hp & HF)%place_all_spec; [| done..].
  split; [done |]. split; [done |]. exists placed. split; [done |].
  destruct (new_ships_cells fleet_lengths tps Hlen) as [Hfresh _].
  destruct (new_ships_fields fleet_lengths tps Hlen) as [El _].
  pose proof (placed_from_fields _ _ HF) as (Hl & _).
  pose proof (placed_from_intact _ _ HF) as [_ Hf].
  split; [by rewrite Hl, El | auto].
Qed.

Lemma create_appends_a_fleet_witness :
  board_ok twice_board /\ _size twice_board = _size wide_board
  /\ exists placed,
       _ships twice_board = _ships wide_board ++ placed
       /\ map _length placed = [4; 3; 3; 2; 2; 2; 1; 1; 1; 1]
       /\ Forall fresh placed.
Proof.
  apply (create_appends_a_fleet wide_board second_draws twice_board []).
  - exact wide_board_ok.
  - by vm_compute.
Defined.

(** ** What the rendered grid shows *)

Lemma board_ok_size b s : board_ok b -> s ∈ _ships b -> 0 < _size b.
Proof.
  intros [[Hout _] _] [k Hk]%list_elem_of_lookup.
  apply Hout, is_out_board_false in Hk. lia.
Qed.

Lemma get_board_returns b :
  board_ok b ->
  exists g, get_board b = Ok g /\ grid_sized (Z.to_nat (_size b)) g.
Proof.
  intros Hb. unfold get_board.
  destruct (paint_fleet_spec (Z.to_nat (_size b)) (_ships b) 0
              (blank (_size b)))
    as (g & E & Hg & _).
  - apply blank_sized.
  - apply Forall_lookup. intros k s Hk.
    assert (0 < _size b)
      by (eapply board_ok_size; [done | by eapply list_elem_of_lookup_2]).
    rewrite Z2Nat.id by lia. destruct Hb as [[Hout _] Hwf].
    split; [by eapply Forall_lookup_1 | by eapply Hout].
  - by destruct Hb as [[_ Hcol] _].
  - eauto.
Qed.

Lemma occupied_or_free (ships : list Ship) (px py : Z) :
  (exists k s, ships !! k = Some s /\ occupies s px py)
  \/ (forall s, s ∈ ships -> ~ occupies s px py).
Proof.
  destruct (decide (Exists (fun s => occupies s px py) ships)) as [H | H].
  - left. apply Exists_exists in H as (s & [k Hk]%list_elem_of_lookup & Hs).
    eauto.
  - right. intros s Hs Ho. apply H, Exists_exists. eauto.
Qed.

Lemma cell_index_along s j :
  0 <= j ->
  cell_index s (if _tp s =? 1 then _x s + j else _x s)
    (if _tp s =? 1 then _y s else _y s + j)
  = Z.to_nat j.
Proof.
  intros Hj. unfold cell_index, get_finish_coords.
  destruct (_tp s =? 1); cbn [fst snd].
  - rewrite Z.sub_diag, Z.add_simpl_l. cbn. lia.
  - rewrite !Z.add_simpl_l, Z.sub_diag. change (Z.to_nat 1) with 1%nat.
    change (Z.to_nat 0) with 0%nat. lia.
Qed.

(** X9: on every board the program can hold, [get_board] returns a grid
    of size rows and size columns; the cell number j of a ship is shown j
    columns to the right of its start when its orientation is 1 and j rows
    below it otherwise; and a position of the grid holds a reference to a
    cell only if that ship occupies the position, and the background
    marker exactly when no ship does. *)
Theorem rendered_grid_shows_the_fleet (b : Board) :
  reachable b ->
  (exists g, get_board b = Ok g /\ grid_sized (Z.to_nat (_size b)) g)
  /\ (forall k s j, _ships b !! k = Some s -> 0 <= j < _length s ->
        Board_getitem b
          (if _tp s =? 1 then (_y s, _x s + j) else (_y s + j, _x s))
        = Ok (CellRef k (Z.to_nat j)))
  /\ (forall y x k i, 0 <= y < _size b -> 0 <= x < _size b ->
        Board_getitem b (y, x) = Ok (CellRef k i) ->
        exists s, _ships b !! k = Some s /\ occupies s x y
          /\ i = cell_index s x y)
  /\ (forall y x, 0 <= y < _size b -> 0 <= x < _size b ->
        (Board_getitem b (y, x) = Ok Star
         <-> forall s, s ∈ _ships b -> ~ occupies s x y)).
Proof.
  intros Hb%reachable_ok.
  split; [by apply get_board_returns |]. split; [| split].
  - intros k s j Hk Hj.
    pose proof (cell_index_along s j (proj1 Hj)) as Hidx.
    assert (occupies s (if _tp s =? 1 then _x s + j else _x s)
              (if _tp s =? 1 then _y s else _y s + j)) as Hocc.
    { unfold occupies, get_finish_coords.
      destruct (_tp s =? 1); cbn [fst snd]; lia. }
    destruct (Board_getitem_ship b _ _ k s Hb Hk Hocc) as (Hg & _).
    rewrite Hidx in Hg. by destruct (_tp s =? 1).
  - intros y x k i Hy Hx Hg.
    destruct (occupied_or_free (_ships b) x y) as [(k' & s & Hk' & Hocc) | Hfree].
    + destruct (Board_getitem_ship b y x k' s Hb Hk' Hocc) as (Hg' & _).
      rewrite Hg in Hg'. injection Hg' as -> ->. eauto.
    + pose proof (proj2 (Board_getitem_spec b y x Hb Hy Hx) Hfree) as Hg'.
      congruence.
  - intros y x Hy Hx. split.
    + intros Hg s [k Hk]%list_elem_of_lookup Hocc.
      destruct (Board_getitem_ship b y x k s Hb Hk Hocc) as (Hg' & _).
      congruence.
    + apply Board_getitem_spec; done.
Qed.

Lemma rendered_grid_shows_the_fleet_witness :
  Board_getitem example_board_moved
    (if _tp (Ship_init 3 2 5 0) =? 1 then (0, 5 + 2) else (0 + 2, 5))
  = Ok (CellRef 1 (Z.to_nat 2)).
Proof.
  apply (proj1 (proj2 (rendered_grid_shows_the_fleet example_board_moved
                         example_board_moved_reachable))
           1%nat (Ship_init 3 2 5 0) 2).
  - by vm_compute.
  - done.
Defined.

(** ** What can be typed *)

Lemma letter_pos_typed (small : bool) (row : nat) :
  (row < 26)%nat ->
  letter_pos ((if small then 97 else 65) + row) = Some row.
Proof.
  intros Hr. unfold letter_pos.
  destruct small.
  - replace ((65 <=? 97 + row)%nat && (97 + row <=? 90)%nat) with false
      by (symmetry; apply andb_false_iff; right; apply Nat.leb_gt; lia).
    replace ((97 <=? 97 + row)%nat && (97 + row <=? 122)%nat) with true
      by (symmetry; apply andb_true_iff; split; apply Nat.leb_le; lia).
    f_equal. lia.
  - replace ((65 <=? 65 + row)%nat && (65 + row <=? 90)%nat) with true
      by (symmetry; apply andb_true_iff; split; apply Nat.leb_le; lia).
    f_equal. lia.
Qed.

(** X10: typing is the inverse of reading for rows A-Z (either case) and
    columns 1-9: the line for row r and column c is read back as (r, c).
    Whatever is typed, the row read is below 26 and the column between -1
    and 8, so the position of the tenth column (index 9) cannot be
    entered. *)
Theorem typed_shot_round_trip {U : Unicode} :
  (forall small row col, (row < 26)%nat -> (col < 9)%nat ->
     read_shot (shot_text small row col) = Ok (Z.of_nat row, Z.of_nat col))
  /\ (forall line row col, read_shot line = Ok (row, col) ->
        0 <= row < 26 /\ -1 <= col <= 8)
  /\ (forall line row, read_shot line <> Ok (row, 9)).
Proof.
  assert (forall line row col, read_shot line = Ok (row, col) ->
            0 <= row < 26 /\ -1 <= col <= 8) as Himage.
  { intros line row col (y & x & n & _ & Hy & -> & _ & Hn & ->)%read_shot_ok.
    apply int_of_char_range in Hn. lia. }
  split; [| split; [done |]].
  - intros small row col Hr Hc.
    rewrite read_shot_ascii.
    + unfold shot_text. rewrite letter_pos_typed by done.
      replace ((48 <=? 49 + col)%nat && (49 + col <=? 57)%nat) with true
        by (symmetry; apply digit_test; lia).
      do 2 f_equal. lia.
    + unfold shot_text. constructor; [| constructor; [| constructor]];
        unfold is_ascii; destruct small; lia.
  - intros line row H. apply Himage in H. lia.
Qed.

Lemma typed_shot_round_trip_witness :
  read_shot (U := sample_unicode) (shot_text true 7 3) = Ok (7, 3).
Proof.
  apply (proj1 (typed_shot_round_trip (U := sample_unicode)) true 7%nat
           3%nat); lia.
Defined.

(** ** One call of [shoot], one shot *)

(** On a board that passes the checks [hit] raises nothing but its own
    two errors. *)
Lemma hit_raises_own_errors b y x e :
  board_ok b -> fst (hit b y x) = Raise e ->
  (e = IndexBoardError /\ ~ (0 <= y < _size b /\ 0 <= x < _size b))
  \/ (e = ShootError /\ 0 <= y < _size b /\ 0 <= x < _size b).
Proof.
  intros Hb He.
  destruct (hit_raise_kinds b y x e He) as [? | [[-> | ->] [Hy Hx]]];
    [by left | by right |].
  exfalso. revert He. unfold hit. pass_bounds_check.
  destruct (occupied_or_free (_ships b) x y) as [(k & s & Hk & Hocc) | Hfree].
  - destruct (Board_getitem_ship b y x k s Hb Hk Hocc) as (Hg & _ & _ & c & Hc).
    rewrite Hg, Hk, Hc. by destruct (negb (Cell_bool c)).
  - by rewrite (proj2 (Board_getitem_spec b y x Hb Hy Hx) Hfree).
Qed.

Lemma Human_try_cases {U : Unicode} b line :
  board_ok b ->
  refused b line /\ snd (Human_try b line) = b
  \/ exists flag rep, fst (Human_try b line) = Ok (flag, rep).
Proof.
  intros Hb. destruct (fst (Human_try b line)) as [[flag rep] | e] eqn:E;
    [right; eauto | left].
  split; [| by eapply Human_try_raise_keeps].
  exists e. split; [done |]. unfold Human_try in E.
  destruct (read_shot line) as [[row col] | e'] eqn:Er.
  - destruct (hit_raises_own_errors b row col e Hb E) as [[-> _] | [-> _]]; auto.
  - apply read_shot_raise in Er as ->. injection E as <-. auto.
Qed.

(** X11: on a board that passes the checks, one call of the human
    player's [shoot] either finds every remaining line refused, raises
    [EOFError] and leaves the board as it was, or resolves exactly one
    shot: the lines before the first accepted one are refused and change
    nothing, the accepted line is passed to [hit], the lines after it are
    left unread, and the call returns the flag of [hit] when the very
    first line was accepted and [None] after any retry. *)
Theorem human_shoot_resolves_one_shot {U : Unicode} (b : Board)
    (lines : list str) :
  board_ok b ->
  (Forall (refused b) lines
   /\ Human_shoot b lines = (Raise EOFError, b, []))
  \/ (exists before line rest flag rep,
        lines = before ++ line :: rest
        /\ Forall (refused b) before
        /\ fst (Human_try b line) = Ok (flag, rep)
        /\ Human_shoot b lines
           = (Ok (match before with [] => Some flag | _ => None end),
              snd (Human_try b line), rest)).
Proof.
  intros Hb. induction lines as [| line lines IH].
  - left. split; [constructor | done].
  - destruct (Human_try_cases b line Hb) as [[Href Hkeep] | (flag & rep & Hok)].
    + assert (Human_shoot b (line :: lines) = after_retry (Human_shoot b lines))
        as Hretry.
      { destruct Href as (e & He & Hkind). cbn [Human_shoot].
        destruct (Human_try b line) as [r b1]. cbn in He, Hkeep. subst r b1.
        by destruct Hkind as [-> | [-> | ->]]. }
      destruct IH as [[Hall E] | (before & l & rest & flag & rep & -> & Hall & Hok & E)].
      * left. split; [by constructor |]. by rewrite Hretry, E.
      * right. exists (line :: before), l, rest, flag, rep.
        split; [done |]. split; [by constructor |]. split; [done |].
        rewrite Hretry, E. by destruct before.
    + right. exists [], line, lines, flag, rep.
      split; [done |]. split; [constructor |]. split; [done |].
      cbn [Human_shoot]. destruct (Human_try b line) as [r b1].
      cbn in Hok. by subst r.
Qed.

Lemma human_shoot_resolves_one_shot_witness :
  (Forall (refused (U := sample_unicode) example_board_shot)
     (text <$> ["A1"; "zz"; "C7"; "A2"]%string)
   /\ Human_shoot (U := sample_unicode) example_board_shot
        (text <$> ["A1"; "zz"; "C7"; "A2"]%string)
      = (Raise EOFError, example_board_shot, []))
  \/ (exists before line rest flag rep,
        text <$> ["A1"; "zz"; "C7"; "A2"]%string = before ++ line :: rest
        /\ Forall (refused (U := sample_unicode) example_board_shot) before
        /\ fst (Human_try (U := sample_unicode) example_board_shot line)
           = Ok (flag, rep)
        /\ Human_shoot (U := sample_unicode) example_board_shot
             (text <$> ["A1"; "zz"; "C7"; "A2"]%string)
           = (Ok (match before with [] => Some flag | _ => None end),
              snd (Human_try (U := sample_unicode) example_board_shot line),
              rest)).
Proof.
  apply (human_shoot_resolves_one_shot (U := sample_unicode)
           example_board_shot).
  apply reachable_ok. exists 10, example_draws, example_board, [].
  split; [by vm_compute | apply rtc_once, step_hit].
Defined.

Lemma AI_shoot_spec n : forall b rnd r b' rnd',
  (length rnd <= n)%nat -> board_ok b -> 10 <= _size b ->
  AI_shoot b rnd = Some (r, b', rnd') ->
  (2 + length rnd' <= length rnd)%nat
  /\ exists row col flag rep,
       0 <= row <= 9 /\ 0 <= col <= 9
       /\ hit b row col = (Ok (flag, rep), b')
       /\ r = Ok (if decide (length rnd = 2 + length rnd')%nat
                  then Some flag else None).
Proof.
  induction n as [| n IH]; intros b rnd r b' rnd' Hn Hb Hsize;
    destruct rnd as [| rx [| ry rnd]]; cbn in Hn; try done; try lia.
  cbn [AI_shoot].
  pose proof (randint_range 0 9 rx) as Hx.
  pose proof (randint_range 0 9 ry) as Hy.
  destruct (hit b (randint 0 9 rx) (randint 0 9 ry)) as [[[flag rep] | e] b1]
    eqn:Eh.
  - intros [= <- <- <-]. split; [cbn; lia |].
    exists (randint 0 9 rx), (randint 0 9 ry), flag, rep.
    split; [lia |]. split; [lia |]. split; [done |].
    by rewrite decide_True by (cbn; lia).
  - assert (e = ShootError /\ b1 = b) as [-> ->].
    { pose proof (f_equal fst Eh) as He. cbn in He.
      destruct (hit_raises_own_errors b _ _ e Hb He) as [[_ Hout] | [-> _]].
      - exfalso. apply Hout. lia.
      - split; [done |].
        destruct (hit_cases b (randint 0 9 rx) (randint 0 9 ry))
          as [[e' E] | [E | (? & ? & ? & ? & _ & _ & _ & _ & E)]];
          rewrite E in Eh; congruence. }
    destruct (AI_shoot b rnd) as [[[r0 b0] rnd0] |] eqn:Ea; [| done].
    cbn. intros H.
    assert (length rnd <= n)%nat as Hn' by lia.
    destruct (IH b rnd r0 b0 rnd0 Hn' Hb Hsize Ea)
      as (Hlen & row & col & flag & rep & Hrow & Hcol & Hhit & ->).
    cbn in H. injection H as <- <- <-. split; [cbn; lia |].
    exists row, col, flag, rep. split; [done |]. split; [done |].
    split; [done |]. by rewrite decide_False by (cbn; lia).
Qed.

(** X12: on a board of size 10 or more that passes the checks, a call of
    the AI's [shoot] that returns has resolved exactly one shot, at a row
    and a column between 0 and 9, and raised nothing; it returns the flag
    of [hit] when the first pair of random numbers was accepted and
    [None] after any retry.  On a smaller board a pair of numbers outside
    the board makes it raise [IndexBoardError], which it does not
    catch. *)
Theorem ai_shoot_resolves_one_shot :
  (forall (b : Board) (rnd : list Z) r b' rnd',
     board_ok b -> 10 <= _size b ->
     AI_shoot b rnd = Some (r, b', rnd') ->
     exists row col flag rep,
       0 <= row <= 9 /\ 0 <= col <= 9
       /\ hit b row col = (Ok (flag, rep), b')
       /\ r = Ok (if decide (length rnd = 2 + length rnd')%nat
                  then Some flag else None))
  /\ (forall (b : Board) (rx ry : Z) (rnd : list Z),
        ~ (randint 0 9 rx < _size b /\ randint 0 9 ry < _size b) ->
        AI_shoot b (rx :: ry :: rnd) = Some (Raise IndexBoardError, b, rnd)).
Proof.
  split.
  - intros b rnd r b' rnd' Hb Hsize H.
    by destruct (AI_shoot_spec (length rnd) b rnd r b' rnd') as [_ ?].
  - intros b rx ry rnd Hout. cbn [AI_shoot].
    rewrite hit_out_of_bounds; [done |]. lia.
Qed.

Lemma ai_shoot_resolves_one_shot_witness :
  exists row col flag rep,
    0 <= row <= 9 /\ 0 <= col <= 9
    /\ hit example_board_shot row col = (Ok (flag, rep), example_board_shot)
    /\ Ok None
       = Ok (if decide (length [0; 0; 9; 9; 5] = 2 + length [5])%nat
             then Some flag else None).
Proof.
  apply (proj1 ai_shoot_resolves_one_shot example_board_shot [0; 0; 9; 9; 5]
           (Ok None) example_board_shot [5]).
  - apply reachable_ok. exists 10, example_draws, example_board, [].
    split; [by vm_compute | apply rtc_once, step_hit].
  - by vm_compute.
  - by vm_compute.
Defined.

(** ** The boards of a game *)

Lemma Human_shoot_steps {U : Unicode} lines : forall b,
  rtc step b (snd (fst (Human_shoot b lines))).
Proof.
  induction lines as [| line lines IH]; intros b; cbn [Human_shoot];
    [apply rtc_refl |].
  assert (rtc step b (snd (Human_try b line))) as Htry.
  { unfold Human_try. destruct (read_shot line) as [[row col] | e];
      [apply rtc_once, step_hit | apply rtc_refl]. }
  destruct (Human_try b line) as [[[flag rep] | e] b1]; cbn [fst snd] in *;
    [done |].
  assert (rtc step b (snd (fst (after_retry (Human_shoot b1 lines))))) as Hre.
  { specialize (IH b1). destruct (Human_shoot b1 lines) as [[[v | e'] b2] rest];
      cbn [after_retry fst snd] in *; by eapply rtc_trans. }
  by destruct e.
Qed.

Lemma AI_shoot_steps n : forall b rnd r b' rnd',
  (length rnd <= n)%nat ->
  AI_shoot b rnd = Some (r, b', rnd') -> rtc step b b'.
Proof.
  induction n as [| n IH]; intros b rnd r b' rnd' Hn;
    destruct rnd as [| rx [| ry rnd]]; cbn in Hn; try done; try lia.
  cbn [AI_shoot].
  pose proof (step_hit b (randint 0 9 rx) (randint 0 9 ry)) as Hst.
  destruct (hit b (randint 0 9 rx) (randint 0 9 ry)) as [[[flag rep] | e] b1].
  - intros [= _ <- _]. by apply rtc_once.
  - cbn [snd] in Hst.
    destruct e; try (intros [= _ <- _]; by apply rtc_once).
    destruct (AI_shoot b1 rnd) as [[[r0 b0] rnd0] |] eqn:Ea; [| done].
    assert (rtc step b1 b0) by (eapply IH; [| done]; lia).
    cbn. destruct r0; cbn; intros [= _ <- _];
      apply rtc_l with b1; done.
Qed.

Lemma move_ships_step b rnd o b' rnd' :
  move_ships b rnd = Some (o, b', rnd') -> step b b'.
Proof.
  intros H. pose proof (move_ships_from_returns _ _ _ _ _ _ H) as ->.
  by eapply step_move_ships.
Qed.

Lemma play_turn_steps {U : Unicode} g player w o g' w' :
  play_turn g player w = Some (o, g', w') ->
  rtc step (board (_human g)) (board (_human g'))
  /\ rtc step (board (_ai g)) (board (_ai g')).
Proof.
  unfold play_turn.
  destruct (_player_turn g player w) as [[[r g1] w1] |] eqn:Et; [| done].
  assert (rtc step (board (_human g)) (board (_human g1))
          /\ rtc step (board (_ai g)) (board (_ai g1))) as [Hh Ha].
  { unfold _player_turn in Et. destruct player.
    - pose proof (Human_shoot_steps (stdin w) (board (_ai g))) as Hs.
      destruct (Human_shoot _ _) as [[r' b'] lines'].
      injection Et as _ <- _. cbn. split; [apply rtc_refl | done].
    - destruct (AI_shoot _ _) as [[[r' b'] rnd'] |] eqn:Ea; [| done].
      injection Et as _ <- _. cbn. split; [| apply rtc_refl].
      by eapply AI_shoot_steps. }
  destruct r as [v | e]; [| by intros [= _ <- _]].
  destruct (falsy v); [| by intros [= _ <- _]].
  unfold _change_turn.
  destruct (_turn g1) as [[] |]; cbn;
    try (intros [= _ <- _]; by cbn).
  - destruct (_move_ships _ _) as [[[o' g2] rnd2] |] eqn:Em; [| done].
    intros [= _ <- _]. apply _move_ships_spec in Em as (_ & _ & rnd1 & E1 & E2).
    cbn in E1, E2. split.
    + eapply rtc_trans; [done |]. by eapply rtc_once, move_ships_step.
    + eapply rtc_trans; [done |]. by eapply rtc_once, move_ships_step.
  - destruct (_move_ships _ _) as [[[o' g2] rnd2] |] eqn:Em; [| done].
    intros [= _ <- _]. apply _move_ships_spec in Em as (_ & _ & rnd1 & E1 & E2).
    cbn in E1, E2. split.
    + eapply rtc_trans; [done |]. by eapply rtc_once, move_ships_step.
    + eapply rtc_trans; [done |]. by eapply rtc_once, move_ships_step.
Qed.

Lemma game_loop_steps {U : Unicode} fuel : forall g w r g' w',
  game_loop fuel g w = Some (r, g', w') ->
  rtc step (board (_human g)) (board (_human g'))
  /\ rtc step (board (_ai g)) (board (_ai g')).
Proof.
  induction fuel as [| fuel IH]; intros g w r g' w'; cbn [game_loop];
    destruct (SeaBattle_bool g);
    try (intros [= _ <- _]; split; apply rtc_refl); try done.
  destruct (_turn g) as [player |]; [| done].
  destruct (play_turn g player w) as [[[[[] | e] g1] w1] |] eqn:Ep; [| | done].
  - apply play_turn_steps in Ep as [Hh Ha].
    intros [Hh' Ha']%IH. split; by eapply rtc_trans.
  - apply play_turn_steps in Ep as [Hh Ha]. by intros [= _ <- _].
Qed.

Lemma reachable_steps b b' : reachable b -> rtc step b b' -> reachable b'.
Proof.
  intros (size & rnd & b0 & rnd' & Hinit & Hsteps) H.
  exists size, rnd, b0, rnd'. split; [done | by eapply rtc_trans].
Qed.

Lemma Board_init_reachable size rnd b rnd' :
  Board_init size rnd = Some (Ok b, rnd') -> reachable b.
Proof. intros H. exists size, rnd, b, rnd'. split; [done | apply rtc_refl]. Qed.

(** X13: the boards of a game are boards of the engine: [SeaBattle()]
    builds two of them, and every round of the loop and the whole of
    [start] change each board only through calls of its [hit] and
    [move_ships], whether the round returns or raises. *)
Theorem game_boards_stay_reachable {U : Unicode} :
  (forall rnd g rnd',
     SeaBattle_init rnd = Some (Ok g, rnd') ->
     game_reachable g /\ _turn g = None)
  /\ (forall g player w o g' w',
        play_turn g player w = Some (o, g', w') ->
        rtc step (board (_human g)) (board (_human g'))
        /\ rtc step (board (_ai g)) (board (_ai g'))
        /\ (game_reachable g -> game_reachable g'))
  /\ (forall fuel g w r g' w',
        game_reachable g -> start fuel g w = Some (r, g', w') ->
        game_reachable g').
Proof.
  split; [| split].
  - intros rnd g rnd'. unfold SeaBattle_init.
    destruct (Board_init 10 rnd) as [[[bh | e] rnd1] |] eqn:Eh; try done.
    destruct (Board_init 10 rnd1) as [[[ba | e] rnd2] |] eqn:Ea; try done.
    intros [= <- _]. split; [| done].
    split; by eapply Board_init_reachable.
  - intros g player w o g' w' [Hh Ha]%play_turn_steps.
    split; [done |]. split; [done |].
    intros [Rh Ra].
    split; [by apply (reachable_steps _ _ Rh) | by apply (reachable_steps _ _ Ra)].
  - intros fuel g w r g' w' [Rh Ra] [Hh Ha]%game_loop_steps. cbn in Hh, Ha.
    split; [by apply (reachable_steps _ _ Rh) | by apply (reachable_steps _ _ Ra)].
Qed.

Lemma game_boards_stay_reachable_witness :
  rtc step (board (_human example_game)) (board (_human example_game_hit))
  /\ rtc step (board (_ai example_game)) (board (_ai example_game_hit))
  /\ (game_reachable example_game -> game_reachable example_game_hit).
Proof.
  apply (proj1 (proj2 (game_boards_stay_reachable (U := sample_unicode)))
           example_game TheHuman (mkWorld [text "A1"] []) (Ok tt)
           example_game_hit (mkWorld [] [])).
  by vm_compute.
Defined.

(** ** The end of a game *)

Lemma Player_bool_afloat p :
  Player_bool p = false <-> afloat (board p) = 0%nat.
Proof.
  unfold Player_bool. pose proof (Board_bool_afloat (board p)) as H.
  destruct (Board_bool (board p)); split; try done.
  - intros H0. assert (0 < afloat (board p))%nat by (by apply H). lia.
  - intros _. destruct (afloat (board p)); [done |].
    assert (false = true); [apply H; lia | done].
Qed.

(** X14: when the loop of [start] ends with a winner, a fleet has no
    intact cell left: the human is named exactly when the AI's fleet is
    destroyed, and the AI only when the human's fleet is destroyed and
    its own is not.  A game that is over when the loop is entered ends at
    once, without a shot. *)
Theorem game_over_names_the_winner {U : Unicode} :
  (forall fuel g w who g' w',
     game_loop fuel g w = Some (Ok who, g', w') ->
     SeaBattle_bool g' = false
     /\ (who = TheHuman <-> afloat (board (_ai g')) = 0%nat)
     /\ (who = TheAI ->
         afloat (board (_human g')) = 0%nat
         /\ (0 < afloat (board (_ai g')))%nat))
  /\ (forall fuel g w,
        SeaBattle_bool g = false ->
        game_loop fuel g w
        = Some (Ok (if negb (Player_bool (_ai g)) then TheHuman else TheAI),
                g, w)).
Proof.
  assert (forall fuel g w,
            SeaBattle_bool g = false ->
            game_loop fuel g w
            = Some (Ok (if negb (Player_bool (_ai g)) then TheHuman else TheAI),
                    g, w)) as Hover.
  { intros fuel g w Hg. destruct fuel; cbn [game_loop]; by rewrite Hg. }
  split; [| done].
  induction fuel as [| fuel IH]; intros g w who g' w'.
  - cbn [game_loop]. destruct (SeaBattle_bool g) eqn:Hg; [done |].
    intros [= <- <- <-]. split; [done |].
    unfold SeaBattle_bool in Hg. pose proof (Player_bool_afloat (_ai g)) as Ha.
    pose proof (Player_bool_afloat (_human g)) as Hh.
    destruct (Player_bool (_ai g)), (Player_bool (_human g)); cbn in *;
      try done; split; split; try done; try tauto; try lia;
      intros; try (assert (afloat (board (_ai g)) <> 0%nat) by tauto; lia).
  - cbn [game_loop]. destruct (SeaBattle_bool g) eqn:Hg.
    + destruct (_turn g) as [player |]; [| done].
      destruct (play_turn g player w) as [[[[[] | e] g1] w1] |]; try done.
      apply IH.
    + intros [= <- <- <-]. split; [done |].
      unfold SeaBattle_bool in Hg. pose proof (Player_bool_afloat (_ai g)) as Ha.
      pose proof (Player_bool_afloat (_human g)) as Hh.
      destruct (Player_bool (_ai g)), (Player_bool (_human g)); cbn in *;
        try done; split; split; try done; try tauto; try lia;
        intros; try (assert (afloat (board (_ai g)) <> 0%nat) by tauto; lia).
Qed.

Lemma game_over_names_the_winner_witness :
  SeaBattle_bool example_game_won = false
  /\ (TheHuman = TheHuman <-> afloat (board (_ai example_game_won)) = 0%nat)
  /\ (TheHuman = TheAI ->
      afloat (board (_human example_game_won)) = 0%nat
      /\ (0 < afloat (board (_ai example_game_won)))%nat).
Proof.
  apply (proj1 (game_over_names_the_winner (U := sample_unicode)) 20%nat
           example_game (mkWorld winning_lines []) TheHuman example_game_won
           (mkWorld [] [])).
  by vm_compute.
Defined.

(** ** What [show] prints *)

Lemma get_uppercase (i : nat) :
  ((i < 26)%nat -> exists c, String.get i ascii_uppercase = Some c)
  /\ ((26 <= i)%nat -> String.get i ascii_uppercase = None).
Proof.
  do 26 (destruct i as [| i]; [split; [intros _; by eexists | lia] |]).
  split; [lia | done].
Qed.

Lemma res_map_ok {A B} (f : A -> res B) (l : list A) :
  (forall a, a ∈ l -> exists v, f a = Ok v) ->
  exists vs, res_map f l = Ok vs /\ Forall2 (fun a v => f a = Ok v) l vs.
Proof.
  induction l as [| a l IH]; intros Hall; cbn [res_map].
  - exists []. split; [done | constructor].
  - destruct (Hall a) as [v Hv]; [left |].
    destruct IH as (vs & E & HF); [intros c Hc; apply Hall; by right |].
    exists (v :: vs). rewrite Hv, E. split; [done | by constructor].
Qed.

Lemma rows_text_ok ships g : forall i,
  (i + length g <= 26)%nat -> printable ships g ->
  exists rows,
    rows_text ships i g = Ok rows /\ length rows = length g
    /\ forall y row, g !! y = Some row ->
         exists letter glyphs,
           String.get (i + y) ascii_uppercase = Some letter
           /\ rows !! y = Some (String letter ("|" ++ String.concat "|" glyphs))
           /\ Forall2 (fun t gl => Target_str ships t = Ok gl) row glyphs.
Proof.
  induction g as [| row g IH]; intros i Hlen Hp; cbn [rows_text].
  - exists []. split; [done |]. split; [done |]. intros y row. by rewrite lookup_nil.
  - cbn in Hlen.
    destruct (proj1 (get_uppercase i)) as [letter Hletter]; [lia |].
    destruct (res_map_ok (Target_str ships) row) as (glyphs & Eg & HF).
    { intros t Ht. apply (Hp row t); [left | done]. }
    destruct (IH (S i)) as (rows & E & Hl & Hrows); [lia | |].
    { intros r t Hr Ht. apply (Hp r t); [by right | done]. }
    unfold row_text. rewrite Hletter, Eg. cbn [res_bind]. rewrite E.
    cbn [res_bind]. eexists. split; [done |]. split; [cbn; lia |].
    intros [| y] r Hy; cbn in Hy.
    + injection Hy as <-. exists letter, glyphs.
      rewrite Nat.add_0_r. done.
    + destruct (Hrows y r Hy) as (l' & gl' & Hget & Hlook & HF').
      exists l', gl'. replace (i + S y)%nat with (S i + y)%nat by lia. done.
Qed.

Lemma rows_text_raise ships g : forall i,
  (26 < i + length g)%nat -> (i <= 26)%nat -> printable ships g ->
  rows_text ships i g = Raise IndexError.
Proof.
  induction g as [| row g IH]; intros i Hlen Hi Hp; cbn in Hlen; [lia |].
  cbn [rows_text]. unfold row_text.
  destruct (decide (i = 26%nat)) as [-> | Hne]; [done |].
  destruct (proj1 (get_uppercase i)) as [letter Hletter]; [lia |].
  destruct (res_map_ok (Target_str ships) row) as (glyphs & Eg & _).
  { intros t Ht. apply (Hp row t); [left | done]. }
  rewrite Hletter, Eg. cbn [res_bind]. rewrite IH; [done | lia | lia |].
  intros r t Hr Ht. apply (Hp r t); [by right | done].
Qed.

Lemma get_board_refs_valid b g :
  get_board b = Ok g -> refs_valid (_ships b) g.
Proof.
  intros Hg. apply (paint_fleet_valid (_ships b) (_ships b) [] (blank (_size b)));
    [done | | done].
  intros r' c' k' i' Hc. unfold grid_cell, blank in Hc.
  destruct (replicate _ _ !! r') as [row' |] eqn:Hr; [| done].
  apply lookup_replicate in Hr as [-> _].
  by apply lookup_replicate in Hc as [? _].
Qed.

Lemma get_board_printable b g :
  get_board b = Ok g -> printable (_ships b) g.
Proof.
  intros Hg row t [y Hy]%list_elem_of_lookup [x Hx]%list_elem_of_lookup.
  destruct t as [| k i]; [by eexists |].
  destruct (get_board_refs_valid b g Hg y x k i) as (s & c & Hk & Hi).
  { unfold grid_cell. by rewrite Hy. }
  cbn. rewrite Hk, Hi. by eexists.
Qed.

(** What is printed for one position of a board that passes the checks. *)
Lemma printed_entry b g (y x : nat) t gl :
  board_ok b -> get_board b = Ok g ->
  Z.of_nat y < _size b -> Z.of_nat x < _size b ->
  grid_cell g y x = Some t -> Target_str (_ships b) t = Ok gl ->
  (gl = "*"%string <->
   forall s, s ∈ _ships b -> ~ occupies s (Z.of_nat x) (Z.of_nat y))
  /\ (forall k s, _ships b !! k = Some s ->
        occupies s (Z.of_nat x) (Z.of_nat y) ->
        exists c, _cells s !! cell_index s (Z.of_nat x) (Z.of_nat y) = Some c
          /\ gl = Cell_str c).
Proof.
  intros Hb Hg Hy Hx Hc Hgl.
  assert (Board_getitem b (Z.of_nat y, Z.of_nat x) = Ok t) as Hget.
  { apply (grid_cell_getitem b g); [done | lia | lia |].
    by rewrite 2!Nat2Z.id. }
  destruct (occupied_or_free (_ships b) (Z.of_nat x) (Z.of_nat y))
    as [(k & s & Hk & Hocc) | Hfree].
  - destruct (Board_getitem_ship b _ _ k s Hb Hk Hocc) as (Hg' & _ & _ & c & Hi).
    rewrite Hget in Hg'. injection Hg' as ->. cbn in Hgl.
    rewrite Hk, Hi in Hgl. injection Hgl as <-. split.
    + split.
      * unfold Cell_str. by destruct (_value c).
      * intros Hno. exfalso. eapply Hno; [| done].
        by eapply list_elem_of_lookup_2.
    + intros k' s' Hk' Hocc'.
      destruct (Board_getitem_ship b _ _ k' s' Hb Hk' Hocc')
        as (Hg'' & _ & _ & c' & Hi').
      rewrite Hget in Hg''. injection Hg'' as <- Hidx.
      assert (s' = s) as -> by congruence. by exists c.
  - pose proof (proj2 (Board_getitem_spec b _ _ Hb
                         (conj (Nat2Z.is_nonneg y) Hy)
                         (conj (Nat2Z.is_nonneg x) Hx)) Hfree) as Hstar.
    rewrite Hget in Hstar. injection Hstar as ->. cbn in Hgl.
    injection Hgl as <-. split; [done |].
    intros k s Hk Hocc. exfalso. eapply Hfree; [| done].
    by eapply list_elem_of_lookup_2.
Qed.

(** X15: [show] on a board the program can hold.  The header always
    lists the columns 1 to 10, whatever the size.  For a size of at most
    26 it prints the header, one row per grid row and the rule; the row
    number y starts with the y-th capital letter and has one entry per
    column, which is ["*"] exactly where no ship is and otherwise the glyph
    of the cell there: intact ships are shown as well as struck cells.
    For a larger size it raises [IndexError] after printing the header
    only. *)
Theorem show_prints_the_fleet (b : Board) :
  reachable b ->
  show_header = "X|1|2|3|4|5|6|7|8|9|10"%string
  /\ (26 < _size b -> show b = (Raise IndexError, [show_header]))
  /\ (_size b <= 26 ->
      exists rows,
        show b = (Ok tt, [show_header; String.concat newline rows; show_rule])
        /\ length rows = Z.to_nat (_size b)
        /\ forall (y : nat), Z.of_nat y < _size b ->
             exists letter glyphs,
               String.get y ascii_uppercase = Some letter
               /\ rows !! y
                  = Some (String letter ("|" ++ String.concat "|" glyphs))
               /\ length glyphs = Z.to_nat (_size b)
               /\ forall (x : nat) gl, glyphs !! x = Some gl ->
                    (gl = "*"%string <->
                     forall s, s ∈ _ships b ->
                       ~ occupies s (Z.of_nat x) (Z.of_nat y))
                    /\ (forall k s, _ships b !! k = Some s ->
                          occupies s (Z.of_nat x) (Z.of_nat y) ->
                          exists c,
                            _cells s !! cell_index s (Z.of_nat x) (Z.of_nat y)
                            = Some c
                            /\ gl = Cell_str c)).
Proof.
  intros Hb%reachable_ok. split; [done |].
  destruct (get_board_returns b Hb) as (g & Hg & Hsized).
  pose proof (get_board_printable b g Hg) as Hp.
  unfold show. rewrite Hg. split.
  - intros Hbig. rewrite rows_text_raise; [done | | lia | done].
    destruct Hsized as [-> _]. lia.
  - intros Hsmall.
    destruct (rows_text_ok (_ships b) g 0) as (rows & E & Hl & Hrows);
      [destruct Hsized as [-> _]; lia | done |].
    rewrite E. exists rows. split; [done |].
    split; [destruct Hsized as [<- _]; done |].
    intros y Hy.
    destruct (lookup_lt_is_Some_2 g y) as [row Hrow];
      [destruct Hsized as [-> _]; lia |].
    destruct (Hrows y row Hrow) as (letter & glyphs & Hget & Hlook & HF).
    exists letter, glyphs. split; [done |]. split; [done |].
    pose proof (grid_sized_row _ _ _ _ Hsized Hrow) as Hrl.
    split; [by rewrite <- (Forall2_length _ _ _ HF) |].
    intros x gl Hx.
    destruct (Forall2_lookup_r _ _ _ _ _ HF Hx) as (t & Ht & Hstr).
    apply (printed_entry b g y x t gl); try done.
    + apply lookup_lt_Some in Ht. lia.
    + unfold grid_cell. by rewrite Hrow.
Qed.

Lemma show_prints_the_fleet_witness :
  show tall_board = (Raise IndexError, [show_header]).
Proof.
  apply (proj1 (proj2 (show_prints_the_fleet tall_board
                         (Board_init_reachable 30 wide_draws tall_board []
                            eq_refl)))).
  by vm_compute.
Defined.

(** ** Why the check leaves the ship itself out *)

(** X16: the collision test is symmetric, and a ship of non-negative
    length collides with itself.  So on a board that passes the checks
    every ship passes [_check_location_ship] where it stands only because
    the test leaves the ship itself out: checked like a ship that is not
    yet in the fleet, it is turned down. *)
Theorem check_needs_self_exclusion :
  (forall s t, is_collide s t = is_collide t s)
  /\ (forall s, 0 <= _length s -> is_collide s s = true)
  /\ (forall b k s, board_ok b -> _ships b !! k = Some s ->
        _check_location_ship b (Some k) s = false
        /\ _check_location_ship b None s = true).
Proof.
  assert (forall s, 0 <= _length s -> is_collide s s = true) as Hself.
  { intros s Hl. apply is_collide_true.
    destruct (finish_coords_cases s) as [-> | ->]; cbn [fst snd]; lia. }
  split; [apply is_collide_sym |]. split; [done |].
  intros b k s [[Hout Hcol] Hwf] Hk. split.
  - apply check_location_false. split; [by eapply Hout |].
    intros t [j Hj]%list_elem_of_lookup. cbn [others] in Hj.
    rewrite list_lookup_delete in Hj. case_decide.
    + eapply (Hcol k j); [lia | done..].
    + eapply (Hcol k (S j)); [lia | done..].
  - unfold _check_location_ship. apply orb_true_iff. right.
    apply existsb_exists. exists s. cbn [others].
    split; [by eapply list_elem_of_In, list_elem_of_lookup_2 |].
    apply Hself. eapply Forall_lookup_1 in Hwf; [| done].
    destruct Hwf as (? & _). lia.
Qed.

Lemma check_needs_self_exclusion_witness :
  _check_location_ship example_board (Some 3%nat) (Ship_init 2 2 7 0) = false
  /\ _check_location_ship example_board None (Ship_init 2 2 7 0) = true.
Proof.
  apply (proj2 (proj2 check_needs_self_exclusion) example_board 3%nat
           (Ship_init 2 2 7 0)).
  - apply (Board_init_spec 10 example_draws example_board []). by vm_compute.
  - by vm_compute.
Defined.

(** ** Placing one ship *)

Lemma all_rejected_restart b ship x y n : forall rnd,
  (length rnd <= n)%nat ->
  all_rejected b (set_start_coords ship x y) rnd -> all_rejected b ship rnd.
Proof.
  induction n as [| n IH]; intros [| rx [| ry rnd]] Hn; cbn in Hn |- *;
    try done; try lia.
  intros [Hchk Hrest]. split; [done |]. apply IH; [lia | done].
Qed.

Lemma placement_first_accepted n : forall rnd b ship b' rnd',
  (length rnd <= n)%nat ->
  _placement_ship b ship rnd = Some (Ok tt, b', rnd') ->
  exists rejected rx ry,
    rnd = rejected ++ rx :: ry :: rnd'
    /\ all_rejected b ship rejected
    /\ _check_location_ship b None
         (set_start_coords ship (randint 0 (_size b - 1) rx)
            (randint 0 (_size b - 1) ry)) = false
    /\ b' = mkBoard (_size b)
              (_ships b
               ++ [set_start_coords ship (randint 0 (_size b - 1) rx)
                     (randint 0 (_size b - 1) ry)]).
Proof.
  induction n as [| n IH]; intros rnd b ship b' rnd' Hn;
    destruct rnd as [| rx [| ry rnd]]; cbn in Hn |- *;
    destruct (_size b - 1 <? 0) eqn:Hsz; try done; try lia.
  destruct (_check_location_ship b None _) eqn:Hchk; cbn [negb].
  - intros H. apply IH in H as (rejected & rx' & ry' & -> & Hrej & Hok & ->);
      [| lia].
    exists (rx :: ry :: rejected), rx', ry'. split; [done |].
    split; [| done]. split; [done |].
    by eapply all_rejected_restart.
  - intros [= <- <-]. exists [], rx, ry. done.
Qed.

(** X17: [_placement_ship] returns with the first pair of random numbers
    whose position the board accepts: every pair before it was turned
    down by [_check_location_ship], the ship is appended at the position
    of the accepted pair, inside the grid, and nothing else on the board
    changes.  On a board of size 0 or less it raises [ValueError] instead,
    without using a number. *)
Theorem placement_takes_first_accepted_pair (b : Board) (ship : Ship)
    (rnd : list Z) :
  (forall b' rnd',
     _placement_ship b ship rnd = Some (Ok tt, b', rnd') ->
     exists rejected rx ry,
       rnd = rejected ++ rx :: ry :: rnd'
       /\ all_rejected b ship rejected
       /\ 0 <= randint 0 (_size b - 1) rx < _size b
       /\ 0 <= randint 0 (_size b - 1) ry < _size b
       /\ _check_location_ship b None
            (set_start_coords ship (randint 0 (_size b - 1) rx)
               (randint 0 (_size b - 1) ry)) = false
       /\ b' = mkBoard (_size b)
                 (_ships b
                  ++ [set_start_coords ship (randint 0 (_size b - 1) rx)
                        (randint 0 (_size b - 1) ry)]))
  /\ (_size b <= 0 ->
      _placement_ship b ship rnd = Some (Raise ValueError, b, rnd)).
Proof.
  split; [| apply placement_no_room].
  intros b' rnd' H.
  assert (0 < _size b) as Hpos.
  { destruct (Z_lt_le_dec 0 (_size b)) as [? | Hle]; [done |].
    rewrite placement_no_room in H by done. done. }
  apply (placement_first_accepted (length rnd)) in H
    as (rejected & rx & ry & -> & Hrej & Hok & ->); [| done].
  exists rejected, rx, ry.
  pose proof (randint_range 0 (_size b - 1) rx).
  pose proof (randint_range 0 (_size b - 1) ry).
  repeat split; try done; lia.
Qed.

Lemma placement_takes_first_accepted_pair_witness :
  exists rejected rx ry,
    [0; 1; 9; 9; 2; 7; 7] = rejected ++ rx :: ry :: [7]
    /\ all_rejected example_board (Ship_init 1 1 0 0) rejected
    /\ 0 <= randint 0 (_size example_board - 1) rx < _size example_board
    /\ 0 <= randint 0 (_size example_board - 1) ry < _size example_board
    /\ _check_location_ship example_board None
         (set_start_coords (Ship_init 1 1 0 0)
            (randint 0 (_size example_board - 1) rx)
            (randint 0 (_size example_board - 1) ry)) = false
    /\ snd (fst (default (Ok tt, example_board, [])
                   (_placement_ship example_board (Ship_init 1 1 0 0)
                      [0; 1; 9; 9; 2; 7; 7])))
       = mkBoard (_size example_board)
           (_ships example_board
            ++ [set_start_coords (Ship_init 1 1 0 0)
                  (randint 0 (_size example_board - 1) rx)
                  (randint 0 (_size example_board - 1) ry)]).
Proof.
  apply (proj1 (placement_takes_first_accepted_pair example_board
                  (Ship_init 1 1 0 0) [0; 1; 9; 9; 2; 7; 7])).
  by vm_compute.
Defined.
